(** * catbox-redis: the Redis adapter of the catbox cache, verified

    A shallow embedding of [lib/index.js] (class [CatboxRedis] and
    [NotConnectedError]) together with the parts of the JavaScript platform
    the adapter calls: string conversion, [encodeURIComponent],
    [JSON.stringify], [JSON.parse], truthiness and property reads.

    Conventions.
    - A JavaScript string is the list of its UTF-16 code units ([jsstring]).
    - A JavaScript value is a finite term ([jsval]): the JSON data model,
      [undefined], and the objects that hold themselves in one of their own
      properties, the values with a reference cycle that [JSON.stringify]
      refuses.  Objects have data properties only, no functions.
    - Numbers are integers, printed and read digit by digit as JavaScript
      prints and reads the integers below [2^53].  The one computation the
      adapter makes on a number, [Math.floor(ttl / 1000)], is the computation
      on doubles: the quotient is rounded to 53 bits before it is floored.
    - The Redis client is an interface ([Client]); every call the adapter
      makes on it is appended to a trace, so that "no remote call" is a
      statement about that trace.
    - An [async] method is a state transformer returning [Ok] (the promise
      resolves) or [Err] (the promise rejects). *)

From Stdlib Require Import ZArith List String Ascii Bool Lia.
From Stdlib Require Import DecimalString DecimalPos.
From stdpp Require Import base option list gmap.

Local Open Scope Z_scope.

(** ** Strings *)

Definition jsstring := list Z.

Definition code_unit (c : Z) : Prop := 0 <= c < 65536.

(** The code units of an ASCII literal. *)
Definition str (s : string) : jsstring :=
  List.map (fun a => Z.of_N (N_of_ascii a)) (list_ascii_of_string s).

(** [Array.prototype.join] on an array of strings. *)
Fixpoint join (sep : jsstring) (parts : list jsstring) : jsstring :=
  match parts with
  | [] => []
  | [p] => p
  | p :: rest => p ++ sep ++ join sep rest
  end.

(** ** Errors and results *)

Inductive error : Type :=
| NotConnectedError          (* class NotConnectedError extends Error *)
| Error (message : string)   (* new Error(message) *)
| TypeError                  (* thrown by the platform: a property read on
                                null or undefined, an object that has no
                                string conversion, a value that
                                JSON.stringify refuses *)
| URIError                   (* encodeURIComponent on a lone surrogate *)
| ClientError (code : Z).    (* whatever the client rejects with *)

(** The [message] the adapter gives the errors it creates itself. *)
Definition message_of (e : error) : option string :=
  match e with
  | NotConnectedError => Some "Client not connected"%string
  | Error message => Some message
  | _ => None
  end.

Inductive result (A : Type) : Type :=
| Ok (a : A)
| Err (e : error).
Arguments Ok {A} a.
Arguments Err {A} e.

#[global] Instance result_ret : MRet result := fun A a => Ok a.
#[global] Instance result_bind : MBind result := fun A B f m =>
  match m with
  | Ok a => f a
  | Err e => Err e
  end.

(** ** Values *)

#[local] Unset Elimination Schemes.
Inductive jsval : Type :=
| JUndefined
| JNull
| JBool (b : bool)
| JNum (n : Z)
| JStr (s : jsstring)
| JArr (items : list jsval)
| JObj (fields : list (jsstring * jsval))
| JCycle (fields : list (jsstring * jsval)) (name : jsstring).
#[local] Set Elimination Schemes.

(** [JCycle fields name] is the object [o] made by [o = { fields }] followed
    by [o[name] = o]: it holds itself, as the value of the test "fails
    setting an item circular references" does ([value.b = value]). *)

(** ToBoolean. *)
Definition truthy (v : jsval) : bool :=
  match v with
  | JUndefined | JNull => false
  | JBool b => b
  | JNum n => negb (n =? 0)
  | JStr s => match s with [] => false | _ => true end
  | JArr _ | JObj _ | JCycle _ _ => true
  end.

(** [v === 0]. *)
Definition is_zero (v : jsval) : bool :=
  match v with
  | JNum n => n =? 0
  | _ => false
  end.

Definition jsstring_eqb (a b : jsstring) : bool :=
  bool_decide (a = b).

(** The value of the own property [name].  An object lists each of its
    properties once, in creation order. *)
Fixpoint own_property (name : jsstring) (fields : list (jsstring * jsval))
  : option jsval :=
  match fields with
  | [] => None
  | (k, v) :: rest =>
      if jsstring_eqb k name then Some v else own_property name rest
  end.

(** The property read [v.name] for a name that no prototype defines (such as
    [segment], [id], [item], [stored]): a TypeError on null and undefined,
    the own property of an object, undefined on everything else. *)
Definition get_property (v : jsval) (name : jsstring) : result jsval :=
  match v with
  | JUndefined | JNull => Err TypeError
  | JObj fields => Ok (default JUndefined (own_property name fields))
  | JCycle fields self =>
      Ok (if jsstring_eqb self name then v
          else default JUndefined (own_property name fields))
  | _ => Ok JUndefined
  end.

(** ToString of an integer Number, every digit printed. *)
Definition number_to_string (n : Z) : jsstring :=
  str (NilZero.string_of_int (Z.to_int n)).

(** ToString of an object whose own properties are data properties.
    OrdinaryToPrimitive calls the object's [toString] and then its [valueOf].
    Without a [toString] property of its own the object inherits
    [Object.prototype.toString].  A [toString] property of its own is not
    callable and is passed over, and no [valueOf], own or inherited, gives a
    primitive: TypeError. *)
Definition object_to_string (fields : list (jsstring * jsval)) : result jsstring :=
  match own_property (str "toString") fields with
  | None => Ok (str "[object Object]")
  | Some _ => Err TypeError
  end.

Section Elements.
Variable to_string : jsval -> result jsstring.

(** The strings [Array.prototype.join] joins: the empty string for an
    undefined or null element, the string conversion of any other. *)
Fixpoint element_strings (items : list jsval) : result (list jsstring) :=
  match items with
  | [] => Ok []
  | x :: rest =>
      t ← match x with
          | JUndefined | JNull => Ok []
          | _ => to_string x
          end;
      ts ← element_strings rest;
      Ok (t :: ts)
  end.
End Elements.

(** ToString. *)
Fixpoint to_string (v : jsval) : result jsstring :=
  match v with
  | JUndefined => Ok (str "undefined")
  | JNull => Ok (str "null")
  | JBool true => Ok (str "true")
  | JBool false => Ok (str "false")
  | JNum n => Ok (number_to_string n)
  | JStr s => Ok s
  | JArr items =>
      ts ← element_strings to_string items; Ok (join (str ",") ts)
  | JObj fields => object_to_string fields
  | JCycle fields self =>
      if jsstring_eqb self (str "toString") then Err TypeError
      else object_to_string fields
  end.

(** ** encodeURIComponent *)

(** uriUnescaped: letters, digits and [- _ . ! ~ * ' ( )]. *)
Definition uriUnescaped (c : Z) : bool :=
  ((65 <=? c) && (c <=? 90)) || ((97 <=? c) && (c <=? 122))
  || ((48 <=? c) && (c <=? 57))
  || existsb (Z.eqb c) [45; 95; 46; 33; 126; 42; 39; 40; 41].

Definition is_high_surrogate (c : Z) : bool := (55296 <=? c) && (c <=? 56319).
Definition is_low_surrogate (c : Z) : bool := (56320 <=? c) && (c <=? 57343).

(** UTF16SurrogatePairToCodePoint. *)
Definition pair_code_point (hi lo : Z) : Z :=
  (hi - 55296) * 1024 + (lo - 56320) + 65536.

(** The UTF-8 octets of a code point. *)
Definition utf8 (cp : Z) : list Z :=
  if cp <? 128 then [cp]
  else if cp <? 2048 then [192 + cp / 64; 128 + cp mod 64]
  else if cp <? 65536 then
    [224 + cp / 4096; 128 + (cp / 64) mod 64; 128 + cp mod 64]
  else
    [240 + cp / 262144; 128 + (cp / 4096) mod 64; 128 + (cp / 64) mod 64;
     128 + cp mod 64].

Definition hex_digit (d : Z) : Z := if d <? 10 then 48 + d else 55 + d.

(** One octet as [%XX], upper-case hexadecimal. *)
Definition percent (octet : Z) : jsstring :=
  [37; hex_digit (octet / 16); hex_digit (octet mod 16)].

Definition percent_all (octets : list Z) : jsstring :=
  List.concat (List.map percent octets).

(** Encode(string, uriUnescaped) of ECMAScript. *)
Fixpoint Encode (s : jsstring) : result jsstring :=
  match s with
  | [] => Ok []
  | c :: rest =>
      if uriUnescaped c then
        r ← Encode rest; Ok (c :: r)
      else if is_low_surrogate c then Err URIError
      else if is_high_surrogate c then
        match rest with
        | d :: rest' =>
            if is_low_surrogate d then
              r ← Encode rest'; Ok (percent_all (utf8 (pair_code_point c d)) ++ r)
            else Err URIError
        | [] => Err URIError
        end
      else
        r ← Encode rest; Ok (percent_all (utf8 c) ++ r)
  end.

Definition encodeURIComponent (v : jsval) : result jsstring :=
  s ← to_string v; Encode s.

(** ** generateKey (lib/index.js, lines 78-86) *)

Definition generateKey (partition key : jsval) : result jsstring :=
  parts ← (if truthy partition
           then p ← encodeURIComponent partition; Ok [p]
           else Ok []);
  segment ← get_property key (str "segment");
  s ← encodeURIComponent segment;
  id ← get_property key (str "id");
  i ← encodeURIComponent id;
  Ok (join (str ":") (parts ++ [s; i])).

(** The well-shaped cache key [{ segment, id }]. *)
Definition cache_key (segment id : jsstring) : jsval :=
  JObj [(str "segment", JStr segment); (str "id", JStr id)].

(** ** JSON.stringify *)

Definition hex_digit_lower (d : Z) : Z := if d <? 10 then 48 + d else 87 + d.

(** UnicodeEscape: [\uXXXX], lower-case hexadecimal. *)
Definition unicode_escape (c : Z) : jsstring :=
  [92; 117; hex_digit_lower (c / 4096); hex_digit_lower ((c / 256) mod 16);
   hex_digit_lower ((c / 16) mod 16); hex_digit_lower (c mod 16)].

Definition quote_unit (c : Z) : jsstring :=
  if c =? 8 then [92; 98]
  else if c =? 9 then [92; 116]
  else if c =? 10 then [92; 110]
  else if c =? 12 then [92; 102]
  else if c =? 13 then [92; 114]
  else if c =? 34 then [92; 34]
  else if c =? 92 then [92; 92]
  else if c <? 32 then unicode_escape c
  else [c].

Fixpoint quote_units (s : jsstring) : jsstring :=
  match s with
  | [] => []
  | c :: rest =>
      if is_high_surrogate c then
        match rest with
        | d :: rest' =>
            if is_low_surrogate d then c :: d :: quote_units rest'
            else unicode_escape c ++ quote_units rest
        | [] => unicode_escape c
        end
      else if is_low_surrogate c then unicode_escape c ++ quote_units rest
      else quote_unit c ++ quote_units rest
  end.

(** QuoteJSONString. *)
Definition QuoteJSONString (s : jsstring) : jsstring :=
  [34] ++ quote_units s ++ [34].

Section Serialize.
Variable SerializeJSONProperty : jsval -> result (option jsstring).

(** The texts of the elements of an array: an element without a text
    (undefined) is written [null]. *)
Fixpoint element_texts (items : list jsval) : result (list jsstring) :=
  match items with
  | [] => Ok []
  | x :: rest =>
      t ← SerializeJSONProperty x;
      ts ← element_texts rest;
      Ok (default (str "null") t :: ts)
  end.

(** The texts of the members of an object: a property without a text
    (undefined) is left out. *)
Fixpoint member_texts (fields : list (jsstring * jsval)) : result (list jsstring) :=
  match fields with
  | [] => Ok []
  | kv :: rest =>
      t ← SerializeJSONProperty (snd kv);
      ms ← member_texts rest;
      Ok (match t with
          | Some t => [QuoteJSONString (fst kv) ++ [58] ++ t]
          | None => []
          end ++ ms)
  end.
End Serialize.

(** SerializeJSONProperty without indentation; [Ok None] is undefined.  An
    object that is met again while it is being serialised is a TypeError:
    serialising [JCycle fields name] comes to its property [name], which
    holds the object itself, unless an earlier property has failed in the
    same way. *)
Fixpoint SerializeJSONProperty (v : jsval) : result (option jsstring) :=
  match v with
  | JUndefined => Ok None
  | JNull => Ok (Some (str "null"))
  | JBool true => Ok (Some (str "true"))
  | JBool false => Ok (Some (str "false"))
  | JNum n => Ok (Some (number_to_string n))
  | JStr s => Ok (Some (QuoteJSONString s))
  | JArr items =>
      ts ← element_texts SerializeJSONProperty items;
      Ok (Some ([91] ++ join [44] ts ++ [93]))
  | JObj fields =>
      ms ← member_texts SerializeJSONProperty fields;
      Ok (Some ([123] ++ join [44] ms ++ [125]))
  | JCycle _ _ => Err TypeError
  end.

Definition JSON_stringify (v : jsval) : result (option jsstring) :=
  SerializeJSONProperty v.

(** SerializeJSONObject: [JSON.stringify] of an object, which is a string
    whenever it returns. *)
Definition SerializeJSONObject (fields : list (jsstring * jsval))
  : result jsstring :=
  ms ← member_texts SerializeJSONProperty fields;
  Ok ([123] ++ join [44] ms ++ [125]).

(** ** Number arithmetic

    [ttl / 1000] is a division of doubles: its result is the double nearest
    the quotient, a significand of 53 bits times a power of two. *)

(** The integer nearest [n / d] for [d > 0], a tie going to the even one. *)
Definition round_half_even (n d : Z) : Z :=
  let q := n / d in
  let r := n mod d in
  if 2 * r <? d then q
  else if d <? 2 * r then q + 1
  else if Z.even q then q
  else q + 1.

(** [n / d] for integers [n > 0] and [d > 0] that are doubles: the pair
    [(m, e)] stands for the double [m * 2^e].  With [s] the difference of the
    binary logarithms the quotient lies between [2^(s-1)] and [2^(s+1)]; its
    binary exponent is [s] or [s - 1], and the significand keeps 53 bits. *)
Definition divide_positive (n d : Z) : Z * Z :=
  let s := Z.log2 n - Z.log2 d in
  let exponent :=
    if n * 2 ^ Z.max 0 (- s) <? d * 2 ^ Z.max 0 s then s - 1 else s in
  let e := exponent - 52 in
  (round_half_even (n * 2 ^ Z.max 0 (- e)) (d * 2 ^ Z.max 0 e), e).

(** The double an integer stands for: the integer itself below [2^53], the
    nearest integer with a significand of 53 bits from there on. *)
Definition to_double (n : Z) : Z :=
  if Z.abs n <? 2 ^ 53 then n
  else
    let e := Z.log2 (Z.abs n) - 52 in
    Z.sgn n * (round_half_even (Z.abs n) (2 ^ e) * 2 ^ e).

(** [n / d] for integers [n] and [d > 0] that are doubles. *)
Definition divide_doubles (n d : Z) : Z * Z :=
  if n =? 0 then (0, 0)
  else
    let '(m, e) := divide_positive (Z.abs n) d in
    (Z.sgn n * m, e).

(** [n / d] for an integer [n] and an integer [d > 0] that is a double. *)
Definition divide (n d : Z) : Z * Z := divide_doubles (to_double n) d.

(** [Math.floor] of the double [m * 2^e]. *)
Definition Math_floor (x : Z * Z) : Z := Z.shiftl (fst x) (snd x).

(** [Math.max] of two integers. *)
Definition Math_max (a b : Z) : Z := Z.max a b.

(** ** JSON.parse *)

Definition is_ws (c : Z) : bool := existsb (Z.eqb c) [32; 9; 10; 13].

Fixpoint skip_ws (s : jsstring) : jsstring :=
  match s with
  | c :: rest => if is_ws c then skip_ws rest else s
  | [] => []
  end.

Fixpoint strip_prefix (p s : jsstring) : option jsstring :=
  match p, s with
  | [], _ => Some s
  | a :: p', b :: s' => if a =? b then strip_prefix p' s' else None
  | _ :: _, [] => None
  end.

Definition is_digit (c : Z) : bool := (48 <=? c) && (c <=? 57).

Fixpoint parse_digits (acc : Z) (s : jsstring) : Z * jsstring :=
  match s with
  | c :: rest =>
      if is_digit c then parse_digits (acc * 10 + (c - 48)) rest else (acc, s)
  | [] => (acc, [])
  end.

(** A number literal of the integer fragment: a literal that goes on with a
    fraction or an exponent is not in the model and is refused. *)
Definition parse_number (s : jsstring) : option (Z * jsstring) :=
  let '(negative, s1) :=
    match s with
    | c :: rest => if c =? 45 then (true, rest) else (false, s)
    | [] => (false, s)
    end in
  match s1 with
  | d :: rest =>
      if is_digit d then
        let '(n, rest') :=
          if d =? 48 then (0, rest) else parse_digits (d - 48) rest in
        match rest' with
        | c :: _ =>
            if existsb (Z.eqb c) [46; 101; 69] then None
            else Some (if negative then - n else n, rest')
        | [] => Some (if negative then - n else n, [])
        end
      else None
  | [] => None
  end.

Definition hex_value (c : Z) : option Z :=
  if is_digit c then Some (c - 48)
  else if (65 <=? c) && (c <=? 70) then Some (c - 55)
  else if (97 <=? c) && (c <=? 102) then Some (c - 87)
  else None.

Definition simple_escape (c : Z) : option Z :=
  if c =? 34 then Some 34
  else if c =? 92 then Some 92
  else if c =? 47 then Some 47
  else if c =? 98 then Some 8
  else if c =? 102 then Some 12
  else if c =? 110 then Some 10
  else if c =? 114 then Some 13
  else if c =? 116 then Some 9
  else None.

(** The characters of a string literal after its opening quote, up to and
    including the closing quote. *)
Fixpoint parse_chars (s : jsstring) : option (jsstring * jsstring) :=
  match s with
  | [] => None
  | c :: rest =>
      if c =? 34 then Some ([], rest)
      else if c <? 32 then None
      else if c =? 92 then
        match rest with
        | e :: rest1 =>
            if e =? 117 then
              match rest1 with
              | h1 :: h2 :: h3 :: h4 :: rest2 =>
                  a ← hex_value h1; b ← hex_value h2;
                  c' ← hex_value h3; d ← hex_value h4;
                  '(t, r) ← parse_chars rest2;
                  Some ((a * 4096 + b * 256 + c' * 16 + d) :: t, r)
              | _ => None
              end
            else
              x ← simple_escape e;
              '(t, r) ← parse_chars rest1;
              Some (x :: t, r)
        | [] => None
        end
      else
        '(t, r) ← parse_chars rest;
        Some (c :: t, r)
  end.

(** CreateDataProperty on the object under construction: a repeated name
    keeps its place and takes the new value. *)
Fixpoint obj_set (name : jsstring) (v : jsval) (fields : list (jsstring * jsval))
  : list (jsstring * jsval) :=
  match fields with
  | [] => [(name, v)]
  | (k, w) :: rest =>
      if jsstring_eqb k name then (k, v) :: rest
      else (k, w) :: obj_set name v rest
  end.

Section Parser.
Variable parse_value : jsstring -> option (jsval * jsstring).

(** The elements of a non-empty array, up to and including [']']. *)
Fixpoint parse_elements (n : nat) (s : jsstring)
  : option (list jsval * jsstring) :=
  match n with
  | O => None
  | S n' =>
      '(v, r) ← parse_value s;
      match skip_ws r with
      | c :: r' =>
          if c =? 44 then
            '(vs, r'') ← parse_elements n' r'; Some (v :: vs, r'')
          else if c =? 93 then Some ([v], r')
          else None
      | [] => None
      end
  end.

(** The members of a non-empty object, up to and including ['}']. *)
Fixpoint parse_members (n : nat) (acc : list (jsstring * jsval)) (s : jsstring)
  : option (list (jsstring * jsval) * jsstring) :=
  match n with
  | O => None
  | S n' =>
      match skip_ws s with
      | q :: r0 =>
          if q =? 34 then
            '(k, r1) ← parse_chars r0;
            match skip_ws r1 with
            | c :: r2 =>
                if c =? 58 then
                  '(v, r3) ← parse_value r2;
                  match skip_ws r3 with
                  | d :: r4 =>
                      if d =? 44 then parse_members n' (obj_set k v acc) r4
                      else if d =? 125 then Some (obj_set k v acc, r4)
                      else None
                  | [] => None
                  end
                else None
            | [] => None
            end
          else None
      | [] => None
      end
  end.
End Parser.

(** One JSON value, with the text that follows it. *)
Fixpoint parse_value (fuel : nat) (s : jsstring) : option (jsval * jsstring) :=
  match fuel with
  | O => None
  | S fuel' =>
      match skip_ws s with
      | [] => None
      | c :: rest =>
          if c =? 34 then
            '(t, r) ← parse_chars rest; Some (JStr t, r)
          else if c =? 91 then
            match skip_ws rest with
            | d :: r =>
                if d =? 93 then Some (JArr [], r)
                else
                  '(vs, r') ← parse_elements (parse_value fuel')
                                (length rest) rest;
                  Some (JArr vs, r')
            | [] => None
            end
          else if c =? 123 then
            match skip_ws rest with
            | d :: r =>
                if d =? 125 then Some (JObj [], r)
                else
                  '(fs, r') ← parse_members (parse_value fuel')
                                (length rest) [] rest;
                  Some (JObj fs, r')
            | [] => None
            end
          else if c =? 110 then
            r ← strip_prefix (str "null") (c :: rest); Some (JNull, r)
          else if c =? 116 then
            r ← strip_prefix (str "true") (c :: rest); Some (JBool true, r)
          else if c =? 102 then
            r ← strip_prefix (str "false") (c :: rest); Some (JBool false, r)
          else
            '(n, r) ← parse_number (c :: rest); Some (JNum n, r)
      end
  end.

(** [JSON.parse]; [None] is a SyntaxError. *)
Definition JSON_parse (text : jsstring) : option jsval :=
  '(v, r) ← parse_value (S (length text)) text;
  match skip_ws r with
  | [] => Some v
  | _ => None
  end.

(** A JSON text written with apostrophes for the double quotes. *)
Definition json (s : string) : jsstring :=
  List.map (fun c => if c =? 39 then 34 else c) (str s).

(** ** The Redis client and the adapter's monad *)

(** The calls the adapter makes on its client. *)
Inductive call : Type :=
| CallConnect
| CallGet (key : jsstring)
| CallSet (key value : jsstring) (mode : string) (seconds : Z)
| CallDel (key : jsstring).

(** What the adapter needs of [options.client]: the [status] property and the
    methods [connect], [get], [set] and [del], each returning a promise. *)
Class Client (C : Type) : Type := {
  status : C -> string;
  client_connect : C -> result unit * C;
  client_get : jsstring -> C -> result (option jsstring) * C;
  client_set : jsstring -> jsstring -> string -> Z -> C -> result unit * C;
  client_del : jsstring -> C -> result (option Z) * C
}.

(** The client object, the clock read by [Date.now()], and the trace of the
    calls made on the client so far. *)
Record world (C : Type) : Type := World {
  client : C;
  clock : Z;
  calls : list call
}.
Arguments World {C} client clock calls.
Arguments client {C} w.
Arguments clock {C} w.
Arguments calls {C} w.

Definition M (C A : Type) : Type := world C -> result A * world C.

Definition ret {C A} (a : A) : M C A := fun w => (Ok a, w).
Definition throw {C A} (e : error) : M C A := fun w => (Err e, w).
Definition bind {C A B} (m : M C A) (k : A -> M C B) : M C B :=
  fun w =>
    match m w with
    | (Ok a, w') => k a w'
    | (Err e, w') => (Err e, w')
    end.
Definition lift {C A} (r : result A) : M C A := fun w => (r, w).

Notation "x <~ m ;; k" := (bind m (fun x => k))
  (at level 100, m at next level, right associativity,
   format "'[v' x  <~  m  ;;  '/' k ']'").

Section Adapter.
Context {C : Type} `{Client C}.

(** One call on the client, recorded in the trace. *)
Definition remote {A} (c : call) (f : C -> result A * C) : M C A :=
  fun w =>
    let '(r, cl) := f (client w) in
    (r, World cl (clock w) (calls w ++ [c])).

Definition Date_now : M C Z := fun w => (Ok (clock w), w).

(** [this.partition], fixed by the constructor. *)
Variable partition : jsval.

(** lines 16-21 *)
Definition start : M C unit :=
  fun w =>
    if negb (String.eqb (status (client w)) "wait") then ret tt w
    else remote CallConnect client_connect w.

(** lines 22-24 *)
Definition stop : M C unit := ret tt.

(** lines 25-27 *)
Definition isReady (w : world C) : bool :=
  String.eqb (status (client w)) "ready".

(** lines 28-36; [None] is the returned null. *)
Definition validateSegmentName (name : jsstring) : option error :=
  if negb (truthy (JStr name)) then Some (Error "Empty string")
  else if existsb (Z.eqb 0) name then Some (Error "Includes null character")
  else None.

(** lines 37-60; [Ok None] is the resolved null. *)
Definition get (key : jsval) : M C (option jsval) :=
  fun w =>
    if negb (isReady w) then throw NotConnectedError w
    else
      (k <~ lift (generateKey partition key) ;;
       result <~ remote (CallGet k) (client_get k) ;;
       match result with
       | None | Some [] => ret None
       | Some text =>
           let envelope := default JNull (JSON_parse text) in
           if negb (truthy envelope) then throw (Error "Bad envelope content")
           else
             item <~ lift (get_property envelope (str "item")) ;;
             stored <~ lift (get_property envelope (str "stored")) ;;
             if (negb (truthy item) && negb (is_zero item))
                || negb (truthy stored)
             then throw (Error "Incorrect envelope structure")
             else ret (Some envelope)
       end) w.

(** lines 61-71.  The arguments of [client.set] are evaluated from left to
    right: [JSON.stringify] may throw, and then no call is made. *)
Definition set (key value : jsval) (ttl : Z) : M C unit :=
  fun w =>
    if negb (isReady w) then throw NotConnectedError w
    else
      (cacheKey <~ lift (generateKey partition key) ;;
       now <~ Date_now ;;
       text <~ lift (SerializeJSONObject
                       [(str "item", value); (str "stored", JNum now);
                        (str "ttl", JNum ttl)]) ;;
       let seconds := Math_max 1 (Math_floor (divide ttl 1000)) in
       remote (CallSet cacheKey text "ex" seconds)
         (client_set cacheKey text "ex" seconds)) w.

(** lines 72-77 *)
Definition drop (key : jsval) : M C (option Z) :=
  fun w =>
    if negb (isReady w) then throw NotConnectedError w
    else
      (k <~ lift (generateKey partition key) ;;
       remote (CallDel k) (client_del k)) w.
End Adapter.

(** The presence check of line 55, read positively: [envelope.item] passes
    when it is truthy or is the number [0]. *)
Definition item_present (item : jsval) : bool := truthy item || is_zero item.

(** The envelope that [set] serialises. *)
Definition envelope_of (value : jsval) (now ttl : Z) : list (jsstring * jsval) :=
  [(str "item", value); (str "stored", JNum now); (str "ttl", JNum ttl)].

(** The text of an object that [JSON.stringify] accepts; the empty text
    stands for an object it refuses. *)
Definition JSON_stringify_object (fields : list (jsstring * jsval)) : jsstring :=
  match SerializeJSONObject fields with
  | Ok text => text
  | Err _ => []
  end.

(** The expiry of line 70, in seconds. *)
Definition expiry_seconds (ttl : Z) : Z :=
  Math_max 1 (Math_floor (divide ttl 1000)).

(** ** A reference client

    An in-memory store that honours the client interface: [connect] moves a
    waiting handle to [ready] (or to [end] when the server is unreachable),
    [set] records the text and its expiry under the key, [get] reads it back,
    [del] removes it and answers the number of keys removed. *)

Record redis : Type := Redis {
  redis_status : string;
  reachable : bool;
  entries : gmap jsstring (jsstring * Z)
}.

#[global] Instance redis_client : Client redis := {
  status := redis_status;
  client_connect r :=
    if reachable r then (Ok tt, Redis "ready" true (entries r))
    else (Err (ClientError 111), Redis "end" false (entries r));
  client_get k r := (Ok (fst <$> entries r !! k), r);
  client_set k v mode seconds r :=
    (Ok tt, Redis (redis_status r) (reachable r) (<[k := (v, seconds)]> (entries r)));
  client_del k r :=
    (Ok (Some (if entries r !! k is Some _ then 1 else 0)),
     Redis (redis_status r) (reachable r) (delete k (entries r)))
}.

(** A connected, empty store at clock [1700000000000]. *)
Definition ready_world : world redis :=
  World (Redis "ready" true ∅) 1700000000000 [].

(** A lazily connecting handle that has not been started. *)
Definition waiting_world : world redis :=
  World (Redis "wait" true ∅) 1700000000000 [].

(** A waiting handle whose server cannot be reached. *)
Definition unreachable_world : world redis :=
  World (Redis "wait" false ∅) 1700000000000 [].

Definition test_key : jsval := cache_key (str "test") (str "x").

(** An envelope written at clock 1 to live one millisecond. *)
Definition expired_text : jsstring := json "{'item':'x','stored':1,'ttl':1}".

(** A connected store that holds [text] under the storage key of
    [test_key]. *)
Definition stored_world (text : jsstring) : world redis :=
  World (Redis "ready" true {[ str "test:x" := (text, 1) ]}) 1700000000000 [].

(** [v.name] on a value that is neither null nor undefined. *)
Definition field (v : jsval) (name : string) : jsval :=
  match get_property v (str name) with
  | Ok x => x
  | Err _ => JUndefined
  end.

(** What lines 42-59 make of the text the client answered. *)
Definition decode (raw : option jsstring) : result (option jsval) :=
  match raw with
  | None | Some [] => Ok None
  | Some text =>
      match JSON_parse text with
      | None => Err (Error "Bad envelope content")
      | Some v =>
          if negb (truthy v) then Err (Error "Bad envelope content")
          else if item_present (field v "item") && truthy (field v "stored")
          then Ok (Some v)
          else Err (Error "Incorrect envelope structure")
      end
  end.

(** ** Definitions used in the statements and proofs *)

(** A value that is not a proper segment or id: anything but a non-empty
    string. *)
Definition ill_shaped (v : jsval) : bool :=
  match v with
  | JStr (_ :: _) => false
  | _ => true
  end.

(** A primitive value that is not a string, or the empty string, or an
    object without a [toString] property of its own. *)
Definition plainly_converted (v : jsval) : bool :=
  match v with
  | JUndefined | JNull | JBool _ | JNum _ | JStr [] => true
  | JStr (_ :: _) | JArr _ => false
  | JObj fields => bool_decide (own_property (str "toString") fields = None)
  | JCycle fields self =>
      negb (jsstring_eqb self (str "toString"))
      && bool_decide (own_property (str "toString") fields = None)
  end.

Definition encodable (v : jsval) : Prop :=
  exists s, encodeURIComponent v = Ok s.

(** [Encode], seen as two passes: the string is cut into tokens, a token
    being an unescaped character or the code point of an escaped one, and
    each token is rendered. *)
Inductive token : Type :=
| Plain (c : Z)
| Escaped (cp : Z).

Definition render (t : token) : jsstring :=
  match t with
  | Plain c => [c]
  | Escaped cp => percent_all (utf8 cp)
  end.

Definition render_all (ts : list token) : jsstring :=
  List.concat (List.map render ts).

Fixpoint tokens (s : jsstring) : result (list token) :=
  match s with
  | [] => Ok []
  | c :: rest =>
      if uriUnescaped c then
        ts ← tokens rest; Ok (Plain c :: ts)
      else if is_low_surrogate c then Err URIError
      else if is_high_surrogate c then
        match rest with
        | d :: rest' =>
            if is_low_surrogate d then
              ts ← tokens rest'; Ok (Escaped (pair_code_point c d) :: ts)
            else Err URIError
        | [] => Err URIError
        end
      else
        ts ← tokens rest; Ok (Escaped c :: ts)
  end.

(** The code units a token was cut from. *)
Definition units (t : token) : jsstring :=
  match t with
  | Plain c => [c]
  | Escaped cp =>
      if cp <? 65536 then [cp]
      else [55296 + (cp - 65536) / 1024; 56320 + (cp - 65536) mod 1024]
  end.

Definition valid_token (t : token) : Prop :=
  match t with
  | Plain c => uriUnescaped c = true
  | Escaped cp => 0 <= cp < 1114112 /\ uriUnescaped cp = false
  end.

(** The digits of a decimal numeral, as code units. *)
Fixpoint uint_units (d : Decimal.uint) : jsstring :=
  match d with
  | Decimal.Nil => []
  | Decimal.D0 l => 48 :: uint_units l
  | Decimal.D1 l => 49 :: uint_units l
  | Decimal.D2 l => 50 :: uint_units l
  | Decimal.D3 l => 51 :: uint_units l
  | Decimal.D4 l => 52 :: uint_units l
  | Decimal.D5 l => 53 :: uint_units l
  | Decimal.D6 l => 54 :: uint_units l
  | Decimal.D7 l => 55 :: uint_units l
  | Decimal.D8 l => 56 :: uint_units l
  | Decimal.D9 l => 57 :: uint_units l
  end.

(** The value of a numeral read after the digits worth [acc]. *)
Fixpoint uint_acc (d : Decimal.uint) (acc : Z) : Z :=
  match d with
  | Decimal.Nil => acc
  | Decimal.D0 l => uint_acc l (acc * 10 + 0)
  | Decimal.D1 l => uint_acc l (acc * 10 + 1)
  | Decimal.D2 l => uint_acc l (acc * 10 + 2)
  | Decimal.D3 l => uint_acc l (acc * 10 + 3)
  | Decimal.D4 l => uint_acc l (acc * 10 + 4)
  | Decimal.D5 l => uint_acc l (acc * 10 + 5)
  | Decimal.D6 l => uint_acc l (acc * 10 + 6)
  | Decimal.D7 l => uint_acc l (acc * 10 + 7)
  | Decimal.D8 l => uint_acc l (acc * 10 + 8)
  | Decimal.D9 l => uint_acc l (acc * 10 + 9)
  end.

(** A text at whose head a number literal ends. *)
Definition ends_number (rest : jsstring) : Prop :=
  match rest with
  | [] => True
  | c :: _ => is_digit c = false /\ existsb (Z.eqb c) [46; 101; 69] = false
  end.

(** A value of the JSON data model: no [undefined] in it, strings and
    property names made of code units, no property name twice in an
    object. *)
#[local] Unset Elimination Schemes.
Inductive json_value : jsval -> Prop :=
| json_null : json_value JNull
| json_bool b : json_value (JBool b)
| json_num n : json_value (JNum n)
| json_str s : Forall code_unit s -> json_value (JStr s)
| json_arr items : Forall json_value items -> json_value (JArr items)
| json_obj fields :
    Forall (fun kv => Forall code_unit (fst kv) /\ json_value (snd kv)) fields ->
    NoDup (List.map fst fields) ->
    json_value (JObj fields).
#[local] Set Elimination Schemes.

(** The text [t] starts like a value and is read back as [v] whatever
    follows it, given fuel for its length. *)
Definition reads_back (v : jsval) (t : jsstring) : Prop :=
  (exists c tl, t = c :: tl /\ is_ws c = false /\ c <> 93 /\ c <> 125)
  /\ forall fuel rest,
       (length t <= fuel)%nat -> ends_number rest ->
       parse_value fuel (t ++ rest) = Some (v, rest).

(** The text of one member, and what it is read back as. *)
Definition member_reads_back (kv : jsstring * jsval) (m : jsstring) : Prop :=
  exists t, m = QuoteJSONString (fst kv) ++ [58] ++ t
            /\ Forall code_unit (fst kv) /\ reads_back (snd kv) t.

(** ** Sequences of calls on one adapter *)

(** One call of a method of the adapter, awaited before the next. *)
Inductive operation : Type :=
| OpStart
| OpStop
| OpGet (key : jsval)
| OpSet (key value : jsval) (ttl : Z)
| OpDrop (key : jsval).

(** The world an operation leaves, whether it resolved or rejected. *)
Definition run_operation {C : Type} `{Client C} (partition : jsval)
    (op : operation) (w : world C) : world C :=
  match op with
  | OpStart => snd (start w)
  | OpStop => snd (stop w)
  | OpGet key => snd (get partition key w)
  | OpSet key value ttl => snd (set partition key value ttl w)
  | OpDrop key => snd (drop partition key w)
  end.

Definition run_operations {C : Type} `{Client C} (partition : jsval)
    (ops : list operation) (w : world C) : world C :=
  List.fold_left (fun w' op => run_operation partition op w') ops w.

Definition is_connect (c : call) : bool :=
  match c with
  | CallConnect => true
  | _ => false
  end.

(** The number of [connect()] calls in a trace. *)
Definition connects (trace : list call) : nat :=
  length (List.filter is_connect trace).

(** A character a storage key may hold: unescaped, or a percent sign, or the
    separating colon. *)
Definition key_character (c : Z) : Prop :=
  uriUnescaped c = true \/ c = 37 \/ c = 58.

(** * Properties *)

(** ** The platform functions on examples *)

Example generateKey_partition :
  generateKey (JStr (str "foo")) (cache_key (str "baz") (str "bar"))
  = Ok (str "foo:baz:bar").
Proof. reflexivity. Qed.

Example generateKey_no_partition :
  generateKey JUndefined (cache_key (str "baz") (str "bar"))
  = Ok (str "baz:bar").
Proof. reflexivity. Qed.

Example generateKey_escapes :
  generateKey JUndefined (cache_key (str "a:b") [233; 55357; 56832])
  = Ok (str "a%3Ab:%C3%A9%F0%9F%98%80").
Proof. vm_compute. reflexivity. Qed.

Example generateKey_unconvertible :
  generateKey JUndefined
    (JObj [(str "segment", JObj [(str "toString", JStr (str "x"))]);
           (str "id", JStr (str "a"))])
  = Err TypeError.
Proof. reflexivity. Qed.

Example to_string_array :
  to_string (JArr [JNum 1; JNull; JObj []; JArr [JNum 2; JNum 3]])
  = Ok (str "1,,[object Object],2,3").
Proof. reflexivity. Qed.

Example JSON_stringify_cycle :
  JSON_stringify (JObj [(str "a", JNum 1);
                        (str "b", JCycle [(str "a", JNum 1)] (str "b"))])
  = Err TypeError.
Proof. reflexivity. Qed.

Example validateSegmentName_empty :
  validateSegmentName [] = Some (Error "Empty string").
Proof. reflexivity. Qed.

Example validateSegmentName_null_character :
  validateSegmentName [97; 0; 98] = Some (Error "Includes null character").
Proof. reflexivity. Qed.

Example validateSegmentName_valid :
  validateSegmentName (str "valid") = None.
Proof. reflexivity. Qed.

Lemma JSON_stringify_JObj fields :
  JSON_stringify (JObj fields) = (text ← SerializeJSONObject fields; Ok (Some text)).
Proof.
  unfold JSON_stringify, SerializeJSONObject. cbn [SerializeJSONProperty].
  by destruct (member_texts SerializeJSONProperty fields).
Qed.

(** ** The expiry in seconds *)

Example divide_examples :
  Math_floor (divide 2500 1000) = 2
  /\ Math_floor (divide 999 1000) = 0
  /\ Math_floor (divide (-1) 1000) = -1
  /\ divide 1 1000 = (4611686018427388, -62)
  /\ to_double 9007199254740993 = 9007199254740992
  /\ Math_floor (divide 200000000000000992 1000) = 200000000000001.
Proof. vm_compute. repeat split. Qed.

(** The rounded quotient is within half a unit of the quotient. *)
Lemma round_half_even_bounds n d :
  0 < d ->
  2 * n - d <= 2 * d * round_half_even n d <= 2 * n + d.
Proof.
  intros Hd. unfold round_half_even.
  pose proof (Z.div_mod n d ltac:(lia)) as Hdm.
  pose proof (Z.mod_pos_bound n d Hd) as Hmod.
  destruct (Z.ltb_spec (2 * (n mod d)) d);
    [nia|destruct (Z.ltb_spec d (2 * (n mod d)));
         [nia|destruct (Z.even (n / d)); nia]].
Qed.

(** The exponent of a quotient by 1000 of a safe integer leaves at least
    nine binary places after the point. *)
Lemma divide_positive_exponent n :
  0 < n < 2 ^ 53 -> - 62 <= snd (divide_positive n 1000) <= - 9.
Proof.
  intros Hn. unfold divide_positive. cbn [snd].
  change (Z.log2 1000) with 9.
  assert (Hlog : 0 <= Z.log2 n < 53).
  { split; [apply Z.log2_nonneg|]. apply Z.log2_lt_pow2; lia. }
  destruct (_ <? _); lia.
Qed.

(** A shift to the left by a negative count is a floored division. *)
Lemma shiftl_negative a e : e <= 0 -> Z.shiftl a e = a / 2 ^ (- e).
Proof.
  intros He. rewrite <- Z.shiftr_opp_r. apply Z.shiftr_div_pow2. lia.
Qed.

(** Below [2^53] the rounding of the quotient never reaches the next whole
    number: the floor of the double quotient is the floor of the quotient. *)
Lemma Math_floor_divide_exact n :
  0 <= n < 2 ^ 53 -> Math_floor (divide n 1000) = n / 1000.
Proof.
  intros Hn. unfold divide, to_double.
  destruct (Z.ltb_spec (Z.abs n) (2 ^ 53)) as [_|Hbig]; [|lia].
  unfold divide_doubles.
  destruct (Z.eqb_spec n 0) as [->|Hne]; [reflexivity|].
  assert (Hpos : 0 < n < 2 ^ 53) by lia.
  pose proof (divide_positive_exponent n Hpos) as He.
  rewrite Z.abs_eq by lia.
  unfold divide_positive in *. cbn [snd] in He.
  set (e := (if _ <? _ then _ else _) - 52) in *. clearbody e.
  rewrite Z.sgn_pos by lia. rewrite Z.mul_1_l.
  unfold Math_floor. cbn [fst snd].
  rewrite shiftl_negative by lia.
  rewrite (Z.max_r 0 (- e)) by lia. rewrite (Z.max_l 0 e) by lia.
  change (2 ^ 0) with 1. rewrite Z.mul_1_r.
  assert (Hpow : 512 <= 2 ^ (- e)).
  { change 512 with (2 ^ 9). apply Z.pow_le_mono_r; lia. }
  set (P := 2 ^ (- e)) in *. clearbody P.
  pose proof (round_half_even_bounds (n * P) 1000 ltac:(lia)) as Hm.
  set (m := round_half_even (n * P) 1000) in *. clearbody m.
  pose proof (Z.div_mod n 1000 ltac:(lia)) as Hdm.
  pose proof (Z.mod_pos_bound n 1000 ltac:(lia)) as Hmod.
  set (q := n / 1000) in *. set (r := n mod 1000) in *. clearbody q r.
  symmetry. apply Z.div_unique with (r := m - q * P).
  - left. nia.
  - lia.
Qed.

(** Rounding keeps the sign. *)
Lemma to_double_nonpositive n : n <= 0 -> to_double n <= 0.
Proof.
  intros Hn. unfold to_double.
  destruct (Z.ltb_spec (Z.abs n) (2 ^ 53)) as [_|Hbig]; [exact Hn|].
  set (e := Z.log2 (Z.abs n) - 52).
  assert (Hd : 0 < 2 ^ e).
  { apply Z.pow_pos_nonneg; [lia|]. subst e.
    assert (53 <= Z.log2 (Z.abs n)) by (apply Z.log2_le_pow2; lia). lia. }
  pose proof (round_half_even_bounds (Z.abs n) (2 ^ e) Hd) as Hb.
  rewrite Z.sgn_neg by lia.
  assert (Ha : 0 <= Z.abs n) by lia.
  set (a := Z.abs n) in *. clearbody a.
  set (D := 2 ^ e) in *. clearbody D.
  set (m := round_half_even a D) in *. clearbody m.
  assert (Hm : 0 <= m) by nia.
  assert (0 <= m * D) by nia. lia.
Qed.

Lemma Math_floor_divide_doubles_nonpositive n :
  n <= 0 -> Math_floor (divide_doubles n 1000) <= 0.
Proof.
  intros Hn. unfold divide_doubles.
  destruct (Z.eqb_spec n 0) as [->|Hne]; [done|].
  unfold divide_positive, Math_floor. cbn [fst snd].
  set (e := (if _ <? _ then _ else _) - 52). clearbody e.
  set (m := round_half_even _ _).
  assert (Hm : 0 <= m).
  { subst m.
    assert (Hd : 0 < 1000 * 2 ^ Z.max 0 e)
      by (apply Z.mul_pos_pos; [lia|apply Z.pow_pos_nonneg; lia]).
    pose proof (round_half_even_bounds (Z.abs n * 2 ^ Z.max 0 (- e)) _ Hd) as Hb.
    assert (0 <= Z.abs n * 2 ^ Z.max 0 (- e))
      by (apply Z.mul_nonneg_nonneg; [lia|apply Z.pow_nonneg; lia]).
    set (D := 1000 * 2 ^ Z.max 0 e) in *. clearbody D.
    set (N := Z.abs n * 2 ^ Z.max 0 (- e)) in *. clearbody N.
    set (x := round_half_even N D) in *. clearbody x.
    nia. }
  clearbody m.
  rewrite Z.sgn_neg by lia.
  destruct (Z.le_gt_cases 0 e) as [He|He].
  - rewrite Z.shiftl_mul_pow2 by lia.
    assert (0 <= 2 ^ e) by (apply Z.pow_nonneg; lia). nia.
  - rewrite shiftl_negative by lia.
    apply Z.div_le_upper_bound; [apply Z.pow_pos_nonneg; lia|lia].
Qed.

(** A ttl that is not positive has no whole second, whatever its size. *)
Lemma Math_floor_divide_nonpositive n :
  n <= 0 -> Math_floor (divide n 1000) <= 0.
Proof.
  intros Hn. apply Math_floor_divide_doubles_nonpositive.
  by apply to_double_nonpositive.
Qed.

(** The expiry of a ttl below [2^53] milliseconds, in closed form. *)
Lemma expiry_seconds_exact ttl :
  ttl < 2 ^ 53 -> expiry_seconds ttl = Z.max 1 (ttl / 1000).
Proof.
  intros Hlt. unfold expiry_seconds, Math_max.
  destruct (Z.le_gt_cases 0 ttl) as [Hge|Hneg].
  - by rewrite Math_floor_divide_exact by lia.
  - pose proof (Math_floor_divide_nonpositive ttl ltac:(lia)).
    assert (ttl / 1000 <= 0) by (apply Z.div_le_upper_bound; lia).
    lia.
Qed.

Lemma expiry_seconds_positive ttl : 1 <= expiry_seconds ttl.
Proof. unfold expiry_seconds, Math_max. lia. Qed.

(** ** The operations on an adapter that is not ready, and on one that is *)

Section Gate.
Context {C : Type} `{Client C}.
Variables (partition : jsval) (w : world C).

Lemma get_not_ready key :
  isReady w = false -> get partition key w = (Err NotConnectedError, w).
Proof. intros Hr. unfold get. rewrite Hr. reflexivity. Qed.

Lemma set_not_ready key value ttl :
  isReady w = false -> set partition key value ttl w = (Err NotConnectedError, w).
Proof. intros Hr. unfold set. rewrite Hr. reflexivity. Qed.

Lemma drop_not_ready key :
  isReady w = false -> drop partition key w = (Err NotConnectedError, w).
Proof. intros Hr. unfold drop. rewrite Hr. reflexivity. Qed.

(** Key generation runs before the remote call: when it throws, the error
    is the operation's and the world is untouched. *)
Lemma get_bad_key key e :
  isReady w = true -> generateKey partition key = Err e ->
  get partition key w = (Err e, w).
Proof.
  intros Hr Hk. unfold get, bind, lift. rewrite Hr, Hk. reflexivity.
Qed.

Lemma set_bad_key key value ttl e :
  isReady w = true -> generateKey partition key = Err e ->
  set partition key value ttl w = (Err e, w).
Proof.
  intros Hr Hk. unfold set, bind, lift. rewrite Hr, Hk. reflexivity.
Qed.

Lemma drop_bad_key key e :
  isReady w = true -> generateKey partition key = Err e ->
  drop partition key w = (Err e, w).
Proof.
  intros Hr Hk. unfold drop, bind, lift. rewrite Hr, Hk. reflexivity.
Qed.

(** With a storage key and a text for the envelope, [set] is one
    [client.set] call. *)
Lemma set_ready key value ttl k text :
  isReady w = true -> generateKey partition key = Ok k ->
  SerializeJSONObject (envelope_of value (clock w) ttl) = Ok text ->
  let seconds := expiry_seconds ttl in
  set partition key value ttl w
  = (fst (client_set k text "ex" seconds (client w)),
     World (snd (client_set k text "ex" seconds (client w))) (clock w)
       (calls w ++ [CallSet k text "ex" seconds])).
Proof.
  intros Hr Hk Ht. unfold set, bind, lift, Date_now, remote.
  unfold envelope_of in Ht. rewrite Hr, Hk. cbn [negb]. rewrite Ht.
  cbn [client clock calls]. fold (expiry_seconds ttl).
  destruct (client_set _ _ _ _ _). reflexivity.
Qed.

(** Serialisation runs before the remote call: when it throws, the error is
    that of [set] and the world is untouched. *)
Lemma set_unserialisable key value ttl k e :
  isReady w = true -> generateKey partition key = Ok k ->
  SerializeJSONObject (envelope_of value (clock w) ttl) = Err e ->
  set partition key value ttl w = (Err e, w).
Proof.
  intros Hr Hk Ht. unfold set, bind, lift, Date_now.
  unfold envelope_of in Ht. rewrite Hr, Hk. cbn [negb]. by rewrite Ht.
Qed.

(** With a storage key, [drop] is one [client.del] call. *)
Lemma drop_ready key k :
  isReady w = true -> generateKey partition key = Ok k ->
  drop partition key w
  = (fst (client_del k (client w)),
     World (snd (client_del k (client w))) (clock w)
       (calls w ++ [CallDel k])).
Proof.
  intros Hr Hk. unfold drop, bind, lift, remote.
  rewrite Hr, Hk. simpl.
  destruct (client_del _ _). reflexivity.
Qed.

(** With a storage key, [get] is one [client.get] call whose failure is
    passed on and whose answer is decoded. *)
Lemma get_ready key k :
  isReady w = true -> generateKey partition key = Ok k ->
  get partition key w
  = (match fst (client_get k (client w)) with
     | Ok raw => decode raw
     | Err e => Err e
     end,
     World (snd (client_get k (client w))) (clock w)
       (calls w ++ [CallGet k])).
Proof.
  intros Hr Hk. unfold get, bind, lift, remote.
  rewrite Hr, Hk. simpl.
  destruct (client_get _ _) as [[raw|e] cl]; simpl; [|reflexivity].
  destruct raw as [[|c text]|]; simpl; try reflexivity.
  unfold decode, ret, throw, field.
  destruct (JSON_parse (c :: text)) as [v|]; simpl; [|reflexivity].
  destruct (truthy v) eqn:Hv; simpl; [|reflexivity].
  destruct v as [| |b|n|s|items|fields|fields self];
    simpl in Hv; try discriminate; cbn [get_property]; try reflexivity.
  all: unfold item_present.
  all: repeat match goal with
              | |- context [truthy ?x] => destruct (truthy x)
              | |- context [is_zero ?x] => destruct (is_zero x)
              end; reflexivity.
Qed.
End Gate.

(** ** Readiness gating *)

(** C5: whenever [isReady()] is false, each of [get], [set] and [drop]
    rejects with NotConnectedError, an error distinct from every generic
    [Error], and leaves the world as it was: no call reaches the client. *)
Theorem not_ready_rejects {C : Type} `{Client C}
    (partition key value : jsval) (ttl : Z) (w : world C) :
  isReady w = false ->
  get partition key w = (Err NotConnectedError, w)
  /\ set partition key value ttl w = (Err NotConnectedError, w)
  /\ drop partition key w = (Err NotConnectedError, w)
  /\ (forall message, NotConnectedError <> Error message).
Proof.
  intros Hr. repeat split.
  - by apply get_not_ready.
  - by apply set_not_ready.
  - by apply drop_not_ready.
  - discriminate.
Qed.

Lemma not_ready_rejects_witness :
  isReady waiting_world = false
  /\ get JUndefined test_key waiting_world = (Err NotConnectedError, waiting_world)
  /\ set JUndefined test_key (JStr (str "y")) 1 waiting_world
     = (Err NotConnectedError, waiting_world)
  /\ drop JUndefined test_key waiting_world = (Err NotConnectedError, waiting_world)
  /\ (forall message, NotConnectedError <> Error message).
Proof.
  split; [reflexivity|].
  apply (not_ready_rejects JUndefined test_key (JStr (str "y")) 1 waiting_world).
  reflexivity.
Defined.

(** ** Keys that are null, absent or ill-shaped *)

(** Induction on a list by one or two elements at a time, as [Encode] and
    [quote_units] consume their input. *)
Lemma list_pair_ind {A : Type} (P : list A -> Prop) :
  P [] ->
  (forall a, P [a]) ->
  (forall a b l, P l -> P (b :: l) -> P (a :: b :: l)) ->
  forall l, P l.
Proof.
  intros Hnil Hone Hstep l.
  assert (Hboth : P l /\ forall a, P (a :: l)).
  { induction l as [|b l [IHl IHcons]]; split; auto. }
  exact (proj1 Hboth).
Qed.

(** [Encode] throws nothing but URIError. *)
Lemma Encode_error s e : Encode s = Err e -> e = URIError.
Proof.
  revert e. induction s as [|a|a b l IHl IHbl] using list_pair_ind; intros e.
  - discriminate.
  - simpl. destruct (uriUnescaped a); [discriminate|].
    destruct (is_low_surrogate a); [congruence|].
    destruct (is_high_surrogate a); [congruence|discriminate].
  - change (Encode (a :: b :: l)) with
      (if uriUnescaped a then r ← Encode (b :: l); Ok (a :: r)
       else if is_low_surrogate a then Err URIError
       else if is_high_surrogate a then
         if is_low_surrogate b then
           r ← Encode l; Ok (percent_all (utf8 (pair_code_point a b)) ++ r)
         else Err URIError
       else r ← Encode (b :: l); Ok (percent_all (utf8 a) ++ r)).
    destruct (uriUnescaped a).
    + destruct (Encode (b :: l)) eqn:E; [discriminate|].
      intros [= <-]. by apply IHbl.
    + destruct (is_low_surrogate a); [congruence|].
      destruct (is_high_surrogate a).
      * destruct (is_low_surrogate b); [|congruence].
        destruct (Encode l) eqn:E; [discriminate|].
        intros [= <-]. by apply IHl.
      * destruct (Encode (b :: l)) eqn:E; [discriminate|].
        intros [= <-]. by apply IHbl.
Qed.

(** Induction on a value, with the hypothesis on every element of an array
    and on every property value of an object. *)
Lemma jsval_nested_ind (P : jsval -> Prop) :
  P JUndefined -> P JNull -> (forall b, P (JBool b)) -> (forall n, P (JNum n)) ->
  (forall s, P (JStr s)) ->
  (forall items, Forall P items -> P (JArr items)) ->
  (forall fields, Forall (fun kv => P (snd kv)) fields -> P (JObj fields)) ->
  (forall fields name, P (JCycle fields name)) ->
  forall v, P v.
Proof.
  intros Hu Hn Hb Hz Hs Ha Ho Hc.
  fix self 1. intros [| |b|n|s|items|fields|fields name];
    [exact Hu|exact Hn|apply Hb|apply Hz|apply Hs| | |apply Hc].
  - apply Ha. induction items as [|x items IH]; constructor; [apply self|exact IH].
  - apply Ho. induction fields as [|[k x] fields IH]; constructor;
      [apply self|exact IH].
Qed.

(** ** String conversion *)

Lemma object_to_string_error fields e :
  object_to_string fields = Err e -> e = TypeError.
Proof.
  unfold object_to_string.
  destruct (own_property _ fields); [congruence|discriminate].
Qed.

(** The string conversion throws nothing but TypeError. *)
Lemma to_string_error v e : to_string v = Err e -> e = TypeError.
Proof.
  revert e.
  induction v as [| |b|n|s|items IH|fields IH|fields name]
    using jsval_nested_ind; intros e; cbn [to_string]; try discriminate.
  - destruct b; discriminate.
  - assert (Hitems : forall e', element_strings to_string items = Err e' ->
                                e' = TypeError).
    { induction IH as [|x items Hx _ IHitems]; intros e'; [discriminate|].
      cbn [element_strings].
      assert (Hhead : forall r : result jsstring,
                r = match x with
                    | JUndefined | JNull => Ok []
                    | _ => to_string x
                    end ->
                forall e0, r = Err e0 -> e0 = TypeError).
      { intros r -> e0. destruct x; try discriminate; apply Hx. }
      destruct (match x with
                | JUndefined | JNull => Ok []
                | _ => to_string x
                end) as [t|e0] eqn:Et.
      - destruct (element_strings to_string items) as [ts|e1];
          [discriminate|].
        intros [= <-]. by apply IHitems.
      - intros [= <-]. by apply (Hhead _ eq_refl). }
    destruct (element_strings to_string items) as [ts|e1]; [discriminate|].
    intros [= <-]. by apply Hitems.
  - apply object_to_string_error.
  - destruct (jsstring_eqb name (str "toString")); [congruence|].
    apply object_to_string_error.
Qed.

(** [encodeURIComponent] throws the TypeError of the conversion or the
    URIError of the encoding. *)
Lemma encodeURIComponent_error v e :
  encodeURIComponent v = Err e -> e = TypeError \/ e = URIError.
Proof.
  unfold encodeURIComponent.
  destruct (to_string v) as [s|e'] eqn:Es.
  - intros He. right. by eapply Encode_error.
  - intros [= <-]. left. by eapply to_string_error.
Qed.

(** On a string the conversion is the identity. *)
Lemma encodeURIComponent_string s : encodeURIComponent (JStr s) = Encode s.
Proof. reflexivity. Qed.

(** On a null or absent key [generateKey] throws: the TypeError of the read
    of [key.segment], unless the partition itself could not be encoded. *)
Lemma generateKey_null partition key :
  key = JNull \/ key = JUndefined ->
  exists e, (e = TypeError \/ e = URIError) /\ generateKey partition key = Err e.
Proof.
  intros Hkey. unfold generateKey.
  destruct (truthy partition).
  - destruct (encodeURIComponent partition) as [p|e] eqn:E; simpl.
    + exists TypeError. split; [by left|]. by destruct Hkey as [-> | ->].
    + exists e. split; [by eapply encodeURIComponent_error|reflexivity].
  - exists TypeError. split; [by left|]. by destruct Hkey as [-> | ->].
Qed.

Lemma generateKey_null_no_partition partition key :
  key = JNull \/ key = JUndefined ->
  truthy partition = false ->
  generateKey partition key = Err TypeError.
Proof.
  intros Hkey Hp. unfold generateKey. rewrite Hp.
  by destruct Hkey as [-> | ->].
Qed.

(** C3, as the code has it: on a ready adapter [get(null)] does not resolve
    to null, it rejects with the TypeError of the read of [key.segment]. *)
Lemma get_null_key_rejects :
  isReady ready_world = true
  /\ get JUndefined JNull ready_world = (Err TypeError, ready_world)
  /\ fst (get JUndefined JNull ready_world) <> Ok None.
Proof. repeat split. discriminate. Qed.

(** C3, amended: for a null or absent key, [get] never resolves to null and
    never calls the client: it rejects with NotConnectedError when the
    adapter is not ready; when it is ready it rejects in key generation, with
    a TypeError (or the URIError of a partition that cannot be encoded), the
    world left as it was. *)
Theorem get_null_key {C : Type} `{Client C}
    (partition key : jsval) (w : world C) :
  key = JNull \/ key = JUndefined ->
  (isReady w = false -> get partition key w = (Err NotConnectedError, w))
  /\ (isReady w = true ->
      exists e, (e = TypeError \/ e = URIError)
                /\ get partition key w = (Err e, w))
  /\ (isReady w = true -> truthy partition = false ->
      get partition key w = (Err TypeError, w))
  /\ fst (get partition key w) <> Ok None
  /\ snd (get partition key w) = w.
Proof.
  intros Hkey.
  destruct (generateKey_null partition key Hkey) as (e & He & Hgen).
  assert (Hready : isReady w = true -> get partition key w = (Err e, w))
    by (intros Hr; by apply get_bad_key).
  split; [apply get_not_ready|].
  split; [intros Hr; exists e; auto|].
  split.
  { intros Hr Hp. apply get_bad_key; [done|].
    by apply generateKey_null_no_partition. }
  destruct (isReady w) eqn:Hr.
  - rewrite Hready by done. split; [discriminate|reflexivity].
  - rewrite get_not_ready by done. split; [discriminate|reflexivity].
Qed.

Lemma get_null_key_witness :
  (JNull = JNull \/ JNull = JUndefined)
  /\ get JUndefined JNull waiting_world = (Err NotConnectedError, waiting_world)
  /\ get JUndefined JNull ready_world = (Err TypeError, ready_world).
Proof.
  split; [by left|].
  split.
  - apply (get_null_key JUndefined JNull waiting_world); [by left|reflexivity].
  - apply (get_null_key JUndefined JNull ready_world);
      [by left|reflexivity|reflexivity].
Defined.

(** A string of unescaped characters encodes to itself. *)
Lemma Encode_unescaped s :
  Forall (fun c => uriUnescaped c = true) s -> Encode s = Ok s.
Proof.
  induction 1 as [|c s Hc _ IH]; [reflexivity|].
  simpl. rewrite Hc, IH. reflexivity.
Qed.

Lemma uint_unescaped d :
  Forall (fun c => uriUnescaped c = true) (str (NilEmpty.string_of_uint d)).
Proof.
  induction d; simpl; try constructor; try reflexivity; assumption.
Qed.

Lemma number_to_string_unescaped n :
  Forall (fun c => uriUnescaped c = true) (number_to_string n).
Proof.
  unfold number_to_string, NilZero.string_of_int.
  assert (Hu : forall d,
    Forall (fun c => uriUnescaped c = true) (str (NilZero.string_of_uint d))).
  { intros d. unfold NilZero.string_of_uint.
    destruct d; try apply uint_unescaped. by repeat constructor. }
  destruct (Z.to_int n) as [d|d]; [apply Hu|].
  change (str (String "-" (NilZero.string_of_uint d)))
    with (45 :: str (NilZero.string_of_uint d)).
  constructor; [reflexivity|apply Hu].
Qed.

(** What is converted as it stands and encoded: the primitive values that
    are not strings, the empty string, and the objects without a [toString]
    of their own. *)
Lemma plainly_converted_encodable v : plainly_converted v = true -> encodable v.
Proof.
  unfold encodable, encodeURIComponent.
  destruct v as [| |[|]|n|[|c s]|items|fields|fields name]; intros Hv;
    try discriminate Hv.
  - by exists (str "undefined").
  - by exists (str "null").
  - by exists (str "true").
  - by exists (str "false").
  - exists (number_to_string n). cbn [to_string mbind result_bind].
    apply Encode_unescaped, number_to_string_unescaped.
  - by exists [].
  - exists (str "%5Bobject%20Object%5D").
    cbn [plainly_converted] in Hv. apply bool_decide_eq_true in Hv.
    cbn [to_string]. unfold object_to_string. by rewrite Hv.
  - exists (str "%5Bobject%20Object%5D").
    cbn [plainly_converted] in Hv. apply andb_true_iff in Hv as [Hname Hv].
    apply bool_decide_eq_true in Hv. apply negb_true_iff in Hname.
    cbn [to_string]. rewrite Hname. unfold object_to_string. by rewrite Hv.
Qed.

Lemma plainly_converted_ill_shaped v :
  plainly_converted v = true -> ill_shaped v = true.
Proof. by destruct v as [| |b|n|[|c s]|items|fields|fields name]. Qed.

(** An object with a [toString] property of its own has no string
    conversion. *)
Lemma own_toString_unconvertible fields :
  own_property (str "toString") fields <> None ->
  encodeURIComponent (JObj fields) = Err TypeError.
Proof.
  intros Hown. unfold encodeURIComponent. cbn [to_string].
  unfold object_to_string.
  by destruct (own_property (str "toString") fields).
Qed.

(** The reads of [key.segment] and [key.id] succeed on every key but null
    and undefined. *)
Lemma generateKey_present partition key :
  key <> JNull -> key <> JUndefined ->
  generateKey partition key
  = (parts ← (if truthy partition
              then p ← encodeURIComponent partition; Ok [p]
              else Ok []);
     s ← encodeURIComponent (field key "segment");
     i ← encodeURIComponent (field key "id");
     Ok (join (str ":") (parts ++ [s; i]))).
Proof.
  intros H1 H2. unfold generateKey, field.
  destruct key as [| |b|n|s|items|fields|fields name]; done.
Qed.

(** A key whose fields can be encoded gets a storage key. *)
Lemma generateKey_encodable partition key :
  key <> JNull -> key <> JUndefined ->
  truthy partition = false \/ encodable partition ->
  encodable (field key "segment") -> encodable (field key "id") ->
  exists k, generateKey partition key = Ok k.
Proof.
  intros H1 H2 Hp [s Hs] [i Hi]. rewrite generateKey_present by done.
  rewrite Hs, Hi.
  destruct (truthy partition); [|by eexists].
  destruct Hp as [Hp|[p ->]]; [discriminate|]. by eexists.
Qed.

(** A field that cannot be converted or encoded fails key generation, the
    segment before the id. *)
Lemma generateKey_field_error partition key e :
  key <> JNull -> key <> JUndefined ->
  truthy partition = false \/ encodable partition ->
  encodeURIComponent (field key "segment") = Err e
    \/ (encodable (field key "segment")
        /\ encodeURIComponent (field key "id") = Err e) ->
  generateKey partition key = Err e.
Proof.
  intros H1 H2 Hp Hfield. rewrite generateKey_present by done.
  assert (Hparts : exists parts,
    (if truthy partition
     then p ← encodeURIComponent partition; Ok [p]
     else Ok []) = Ok parts).
  { destruct (truthy partition); [|by eexists].
    destruct Hp as [Hp|[p ->]]; [discriminate|by eexists]. }
  destruct Hparts as [parts ->].
  destruct Hfield as [-> | [[s ->] ->]]; reflexivity.
Qed.

(** C4, as the code has it: on a ready adapter [get({})] raises nothing; it
    asks the client for the key [undefined:undefined].  A key with an empty
    segment is asked for as [:x]. *)
Lemma get_ill_shaped_key_calls :
  isReady ready_world = true
  /\ ill_shaped (field (JObj []) "segment") = true
  /\ get JUndefined (JObj []) ready_world
     = (Ok None,
        World (client ready_world) (clock ready_world)
          [CallGet (str "undefined:undefined")])
  /\ ill_shaped (field (cache_key [] (str "x")) "segment") = true
  /\ get JUndefined (cache_key [] (str "x")) ready_world
     = (Ok None,
        World (client ready_world) (clock ready_world) [CallGet (str ":x")]).
Proof. repeat split. Qed.

(** C4, amended: on a ready adapter [get], [set] and [drop] raise an error
    before any call on the client exactly where key generation throws: on a
    null or absent key, and on a segment or id that has no string conversion
    (an object with a [toString] property of its own) or whose conversion
    cannot be encoded.  No other shape is checked: with a segment and an id
    that are missing, null, empty, a boolean, a number or an object without a
    [toString] of its own, or that can be encoded otherwise, [get] and [drop]
    make their call on the client under the storage key built from the
    string conversions, and so does [set] unless the value cannot be
    serialised. *)
Theorem key_shape_unchecked {C : Type} `{Client C}
    (partition key value : jsval) (ttl : Z) (w : world C) :
  isReady w = true ->
  (forall e, generateKey partition key = Err e ->
   get partition key w = (Err e, w)
   /\ set partition key value ttl w = (Err e, w)
   /\ drop partition key w = (Err e, w))
  /\ (key = JNull \/ key = JUndefined ->
      exists e, generateKey partition key = Err e)
  /\ (key <> JNull -> key <> JUndefined ->
      truthy partition = false \/ encodable partition ->
      forall e,
        encodeURIComponent (field key "segment") = Err e
          \/ (encodable (field key "segment")
              /\ encodeURIComponent (field key "id") = Err e) ->
        generateKey partition key = Err e)
  /\ (forall fields, own_property (str "toString") fields <> None ->
      ill_shaped (JObj fields) = true
      /\ encodeURIComponent (JObj fields) = Err TypeError)
  /\ (forall v, plainly_converted v = true -> ill_shaped v = true)
  /\ (key <> JNull -> key <> JUndefined ->
      truthy partition = false \/ encodable partition ->
      plainly_converted (field key "segment") = true
        \/ encodable (field key "segment") ->
      plainly_converted (field key "id") = true
        \/ encodable (field key "id") ->
      exists k,
        generateKey partition key = Ok k
        /\ calls (snd (get partition key w)) = calls w ++ [CallGet k]
        /\ calls (snd (drop partition key w)) = calls w ++ [CallDel k]
        /\ (forall text,
              SerializeJSONObject (envelope_of value (clock w) ttl) = Ok text ->
              exists seconds,
                calls (snd (set partition key value ttl w))
                = calls w ++ [CallSet k text "ex" seconds])
        /\ (forall e,
              SerializeJSONObject (envelope_of value (clock w) ttl) = Err e ->
              set partition key value ttl w = (Err e, w))).
Proof.
  intros Hr. split; [|split; [|split; [|split; [|split]]]].
  - intros e Hgen. split; [by apply get_bad_key|].
    split; [by apply set_bad_key|by apply drop_bad_key].
  - intros Hkey.
    destruct (generateKey_null partition key Hkey) as (e & _ & Hgen).
    by exists e.
  - intros H1 H2 Hp e Hfield. by apply generateKey_field_error.
  - intros fields Hown. split; [reflexivity|].
    by apply own_toString_unconvertible.
  - apply plainly_converted_ill_shaped.
  - intros H1 H2 Hp Hseg Hid.
    assert (Hs : encodable (field key "segment"))
      by (destruct Hseg; [by apply plainly_converted_encodable|done]).
    assert (Hi : encodable (field key "id"))
      by (destruct Hid; [by apply plainly_converted_encodable|done]).
    destruct (generateKey_encodable partition key H1 H2 Hp Hs Hi) as [k Hk].
    exists k. split; [exact Hk|].
    rewrite (get_ready partition w _ _ Hr Hk).
    rewrite (drop_ready partition w _ _ Hr Hk).
    split; [reflexivity|]. split; [reflexivity|]. split.
    + intros text Ht. exists (expiry_seconds ttl).
      by rewrite (set_ready partition w _ value ttl _ text Hr Hk Ht).
    + intros e Ht. by apply (set_unserialisable partition w key value ttl k).
Qed.

Lemma key_shape_unchecked_witness :
  isReady ready_world = true
  /\ (exists e, drop JUndefined JNull ready_world = (Err e, ready_world))
  /\ (exists k, calls (snd (drop JUndefined (JObj []) ready_world)) = [CallDel k])
  /\ get JUndefined
       (JObj [(str "segment", JObj [(str "toString", JStr (str "x"))]);
              (str "id", JStr (str "a"))]) ready_world
     = (Err TypeError, ready_world).
Proof.
  assert (Hr : isReady ready_world = true) by reflexivity.
  split; [exact Hr|]. split; [|split].
  - destruct (key_shape_unchecked JUndefined JNull JNull 1 ready_world Hr)
      as (Hbad & Hnull & _).
    destruct Hnull as [e Hgen]; [by left|].
    exists e. by apply Hbad.
  - destruct (key_shape_unchecked JUndefined (JObj []) JNull 1 ready_world Hr)
      as (_ & _ & _ & _ & _ & Hobj).
    destruct Hobj as (k & _ & _ & Hdrop & _);
      [discriminate|discriminate|by left|by left|by left|].
    by exists k.
  - destruct (key_shape_unchecked JUndefined
                (JObj [(str "segment", JObj [(str "toString", JStr (str "x"))]);
                       (str "id", JStr (str "a"))])
                JNull 1 ready_world Hr) as (Hbad & _ & Hfield & _).
    apply Hbad. apply Hfield; [discriminate|discriminate|by left|].
    by left.
Defined.

(** ** start *)

Lemma start_not_waiting {C : Type} `{Client C} (w : world C) :
  status (client w) <> "wait"%string -> start w = (Ok tt, w).
Proof.
  intros Hs. unfold start.
  destruct (String.eqb_spec (status (client w)) "wait"); [done|reflexivity].
Qed.

Lemma start_waiting {C : Type} `{Client C} (w : world C) :
  status (client w) = "wait"%string ->
  start w
  = (fst (client_connect (client w)),
     World (snd (client_connect (client w))) (clock w)
       (calls w ++ [CallConnect])).
Proof.
  intros Hs. unfold start, remote. rewrite Hs. simpl.
  destruct (client_connect (client w)). reflexivity.
Qed.

(** C9: [start()] leaves anything but a waiting handle alone: it resolves,
    calls nothing and changes nothing.  On a waiting handle it makes one
    [connect()] call and resolves or rejects as that call does, without a
    second attempt.  As [connect()] takes the handle out of the waiting
    status, a [start()] that follows a first one finds the world as the
    first left it and never connects again. *)
Theorem start_idempotent {C : Type} `{Client C} (w : world C) :
  (status (client w) <> "wait"%string -> start w = (Ok tt, w))
  /\ (status (client w) = "wait"%string ->
      fst (start w) = fst (client_connect (client w))
      /\ client (snd (start w)) = snd (client_connect (client w))
      /\ calls (snd (start w)) = calls w ++ [CallConnect])
  /\ ((forall c : C, status (snd (client_connect c)) <> "wait"%string) ->
      start (snd (start w)) = (Ok tt, snd (start w))).
Proof.
  split; [apply start_not_waiting|].
  split.
  - intros Hs. rewrite (start_waiting w Hs). repeat split.
  - intros Hcontract. apply start_not_waiting.
    destruct (String.eqb_spec (status (client w)) "wait") as [Hs|Hs].
    + rewrite (start_waiting w Hs). simpl. apply Hcontract.
    + rewrite (start_not_waiting w Hs). exact Hs.
Qed.

Lemma redis_connect_leaves_wait (c : redis) :
  status (snd (client_connect c)) <> "wait"%string.
Proof. simpl. destruct (reachable c); discriminate. Qed.

Lemma start_idempotent_witness :
  (forall c : redis, status (snd (client_connect c)) <> "wait"%string)
  /\ start waiting_world
     = (Ok tt, World (Redis "ready" true ∅) 1700000000000 [CallConnect])
  /\ start (snd (start waiting_world)) = (Ok tt, snd (start waiting_world))
  /\ fst (start unreachable_world) = Err (ClientError 111)
  /\ start (snd (start unreachable_world)) = (Ok tt, snd (start unreachable_world)).
Proof.
  split; [exact redis_connect_leaves_wait|].
  split; [reflexivity|].
  split.
  { apply (start_idempotent waiting_world), redis_connect_leaves_wait. }
  split; [reflexivity|].
  apply (start_idempotent unreachable_world), redis_connect_leaves_wait.
Defined.

(** ** Decoding the stored text *)

Lemma JSON_parse_empty : JSON_parse [] = None.
Proof. reflexivity. Qed.

(** The presence check is the negation of the first disjunct of line 55. *)
Lemma item_present_line55 item :
  item_present item = negb (negb (truthy item) && negb (is_zero item)).
Proof. unfold item_present. by destruct (truthy item), (is_zero item). Qed.

(** What fails the presence check: a missing item, null, false, the empty
    string.  What passes: zero and every other value. *)
Lemma item_present_false item :
  item_present item = false
  <-> item = JUndefined \/ item = JNull \/ item = JBool false \/ item = JStr [].
Proof.
  unfold item_present. split.
  - destruct item as [| |[|]|n|[|c s]|items|fields|fields name]; simpl; auto;
      try discriminate.
    destruct (n =? 0); discriminate.
  - by intros [-> | [-> | [-> | ->]]].
Qed.

(** The four outcomes of [decode] and what each says of the text. *)
Lemma decode_inv raw :
  (decode raw = Ok None /\ (raw = None \/ raw = Some []))
  \/ (decode raw = Err (Error "Bad envelope content")
      /\ exists text, raw = Some text /\ text <> []
           /\ (JSON_parse text = None
               \/ exists v, JSON_parse text = Some v /\ truthy v = false))
  \/ (decode raw = Err (Error "Incorrect envelope structure")
      /\ exists text v, raw = Some text /\ text <> []
           /\ JSON_parse text = Some v /\ truthy v = true
           /\ (truthy (field v "stored") = false
               \/ item_present (field v "item") = false))
  \/ (exists envelope, decode raw = Ok (Some envelope)
      /\ exists text, raw = Some text /\ text <> []
           /\ JSON_parse text = Some envelope /\ truthy envelope = true
           /\ truthy (field envelope "stored") = true
           /\ item_present (field envelope "item") = true).
Proof.
  destruct raw as [[|c text]|]; simpl; [left; auto| |left; auto].
  right.
  destruct (JSON_parse (c :: text)) as [v|] eqn:Hparse.
  - destruct (truthy v) eqn:Hv; simpl.
    + right.
      destruct (item_present (field v "item")) eqn:Hitem;
        destruct (truthy (field v "stored")) eqn:Hstored; simpl.
      * right. exists v. split; [reflexivity|].
        exists (c :: text). by repeat split.
      * left. split; [reflexivity|].
        exists (c :: text), v. repeat split; auto.
      * left. split; [reflexivity|].
        exists (c :: text), v. repeat split; auto.
      * left. split; [reflexivity|].
        exists (c :: text), v. repeat split; auto.
    + left. split; [reflexivity|].
      exists (c :: text). repeat split; [done|]. right. by exists v.
  - left. split; [reflexivity|].
    exists (c :: text). repeat split; [done|]. by left.
Qed.

Lemma decode_absent raw :
  raw = None \/ raw = Some [] -> decode raw = Ok None.
Proof. by intros [-> | ->]. Qed.

Lemma decode_bad_content raw text :
  raw = Some text -> text <> [] ->
  JSON_parse text = None
    \/ (exists v, JSON_parse text = Some v /\ truthy v = false) ->
  decode raw = Err (Error "Bad envelope content").
Proof.
  intros -> Hne Hp. destruct text as [|c text]; [done|]. simpl.
  destruct Hp as [-> | (v & -> & Hv)]; [reflexivity|]. by rewrite Hv.
Qed.

Lemma decode_bad_structure raw text v :
  raw = Some text -> text <> [] ->
  JSON_parse text = Some v -> truthy v = true ->
  truthy (field v "stored") = false \/ item_present (field v "item") = false ->
  decode raw = Err (Error "Incorrect envelope structure").
Proof.
  intros -> Hne Hp Hv Hbad. destruct text as [|c text]; [done|]. simpl.
  rewrite Hp, Hv. simpl.
  destruct Hbad as [-> | ->]; [|reflexivity].
  by rewrite andb_false_r.
Qed.

Lemma decode_envelope raw text envelope :
  raw = Some text -> text <> [] ->
  JSON_parse text = Some envelope -> truthy envelope = true ->
  truthy (field envelope "stored") = true ->
  item_present (field envelope "item") = true ->
  decode raw = Ok (Some envelope).
Proof.
  intros -> Hne Hp Hv Hs Hi. destruct text as [|c text]; [done|]. simpl.
  by rewrite Hp, Hv, Hs, Hi.
Qed.

(** C7: on a ready adapter whose client answers [raw], [get] classifies the
    answer exactly so: an absent or empty text resolves to null; a text that
    does not parse, or parses to a falsy value, raises "Bad envelope
    content"; a truthy parsed value whose [stored] is falsy or whose [item]
    fails the presence check raises "Incorrect envelope structure"; any other
    parsed value is returned as the envelope. *)
Theorem get_decode_classification {C : Type} `{Client C}
    (partition key : jsval) (k : jsstring) (w : world C)
    (raw : option jsstring) :
  isReady w = true ->
  generateKey partition key = Ok k ->
  fst (client_get k (client w)) = Ok raw ->
  let outcome := fst (get partition key w) in
  (outcome = Ok None <-> raw = None \/ raw = Some [])
  /\ (outcome = Err (Error "Bad envelope content") <->
      exists text, raw = Some text /\ text <> []
        /\ (JSON_parse text = None
            \/ exists v, JSON_parse text = Some v /\ truthy v = false))
  /\ (outcome = Err (Error "Incorrect envelope structure") <->
      exists text v, raw = Some text /\ text <> []
        /\ JSON_parse text = Some v /\ truthy v = true
        /\ (truthy (field v "stored") = false
            \/ item_present (field v "item") = false))
  /\ (forall envelope, outcome = Ok (Some envelope) <->
      exists text, raw = Some text /\ text <> []
        /\ JSON_parse text = Some envelope /\ truthy envelope = true
        /\ truthy (field envelope "stored") = true
        /\ item_present (field envelope "item") = true).
Proof.
  intros Hr Hk Hraw outcome. subst outcome.
  rewrite (get_ready partition w key k Hr Hk). simpl. rewrite Hraw.
  pose proof (decode_inv raw) as Hinv.
  split; [|split; [|split]].
  - split; [|apply decode_absent].
    intros Hd. rewrite Hd in Hinv.
    destruct Hinv as [[_ Hx]|[[Hx _]|[[Hx _]|(e & Hx & _)]]];
      [exact Hx|discriminate Hx..].
  - split.
    + intros Hd. rewrite Hd in Hinv.
      destruct Hinv as [[Hx _]|[[_ Hx]|[[Hx _]|(e & Hx & _)]]];
        [discriminate Hx|exact Hx|discriminate Hx..].
    + intros (text & Ht & Hne & Hp). by eapply decode_bad_content.
  - split.
    + intros Hd. rewrite Hd in Hinv.
      destruct Hinv as [[Hx _]|[[Hx _]|[[_ Hx]|(e & Hx & _)]]];
        [discriminate Hx..|exact Hx|discriminate Hx].
    + intros (text & v & Ht & Hne & Hp & Hv & Hbad).
      by eapply decode_bad_structure.
  - intros envelope. split.
    + intros Hd. rewrite Hd in Hinv.
      destruct Hinv as [[Hx _]|[[Hx _]|[[Hx _]|(e & Hx & Hfacts)]]];
        [discriminate Hx..|].
      injection Hx as ->. exact Hfacts.
    + intros (text & Ht & Hne & Hp & Hv & Hs & Hi).
      by eapply decode_envelope.
Qed.

Lemma get_decode_classification_witness :
  isReady (stored_world (json "{ 'item': 'false' }")) = true
  /\ generateKey JUndefined test_key = Ok (str "test:x")
  /\ fst (client_get (str "test:x")
            (client (stored_world (json "{ 'item': 'false' }"))))
     = Ok (Some (json "{ 'item': 'false' }"))
  /\ fst (get JUndefined test_key (stored_world (json "{ 'item': 'false' }")))
     = Err (Error "Incorrect envelope structure").
Proof.
  split; [reflexivity|]. split; [reflexivity|]. split; [reflexivity|].
  apply (get_decode_classification JUndefined test_key (str "test:x")
           (stored_world (json "{ 'item': 'false' }"))
           (Some (json "{ 'item': 'false' }")));
    [reflexivity..|].
  exists (json "{ 'item': 'false' }"),
    (JObj [(str "item", JStr (str "false"))]).
  repeat split; [discriminate|by left].
Defined.

(** The malformed texts of the test suite. *)
Example get_not_json :
  fst (get JUndefined test_key (stored_world (str "test")))
  = Err (Error "Bad envelope content").
Proof. reflexivity. Qed.

Example get_missing_stored :
  fst (get JUndefined test_key (stored_world (json "{ 'item': 'false' }")))
  = Err (Error "Incorrect envelope structure").
Proof. reflexivity. Qed.

Example get_missing_item :
  fst (get JUndefined test_key (stored_world (json "{ 'stored': '123' }")))
  = Err (Error "Incorrect envelope structure").
Proof. reflexivity. Qed.

Example get_not_found :
  fst (get JUndefined test_key ready_world) = Ok None.
Proof. reflexivity. Qed.

(** ** No expiry check on the read path *)

(** Writing one property leaves every other property as it was. *)
Lemma own_property_obj_set name k x fields :
  k <> name ->
  own_property name (obj_set k x fields) = own_property name fields.
Proof.
  intros Hne. induction fields as [|[k' w] rest IH]; simpl.
  - unfold jsstring_eqb. by rewrite bool_decide_eq_false_2.
  - unfold jsstring_eqb at 1. case_bool_decide as Hk; simpl.
    + subst k'. unfold jsstring_eqb. by rewrite !bool_decide_eq_false_2.
    + rewrite IH. reflexivity.
Qed.

(** Reading the property just written gives the value written. *)
Lemma own_property_obj_set_same k x fields :
  own_property k (obj_set k x fields) = Some x.
Proof.
  induction fields as [|[k' w] rest IH]; simpl.
  - unfold jsstring_eqb. by rewrite bool_decide_eq_true_2.
  - unfold jsstring_eqb at 1. case_bool_decide as Hk; simpl.
    + unfold jsstring_eqb. by rewrite bool_decide_eq_true_2.
    + unfold jsstring_eqb at 1. by rewrite bool_decide_eq_false_2.
Qed.

Lemma field_obj_set name k x fields :
  str k <> str name ->
  field (JObj (obj_set (str k) x fields)) name = field (JObj fields) name.
Proof.
  intros Hne. unfold field. simpl. by rewrite own_property_obj_set.
Qed.

(** C10: [get] makes no expiry check of its own.  Take any object whose
    [item] passes the presence check, give it any truthy [stored] and any
    [ttl] whatever: if the stored text decodes to that envelope, [get]
    returns it unchanged, at every reading of the clock. *)
Theorem get_no_local_expiry {C : Type} `{Client C}
    (partition key : jsval) (k : jsstring) (w : world C)
    (text : jsstring) (fields : list (jsstring * jsval))
    (stored ttl : jsval) (now : Z) :
  isReady w = true ->
  generateKey partition key = Ok k ->
  item_present (field (JObj fields) "item") = true ->
  truthy stored = true ->
  let envelope :=
    JObj (obj_set (str "ttl") ttl (obj_set (str "stored") stored fields)) in
  fst (client_get k (client w)) = Ok (Some text) ->
  JSON_parse text = Some envelope ->
  fst (get partition key (World (client w) now (calls w))) = Ok (Some envelope).
Proof.
  intros Hr Hk Hitem Hstored envelope Hraw Hparse.
  rewrite (get_ready partition (World (client w) now (calls w)) key k Hr Hk).
  simpl. rewrite Hraw.
  apply (decode_envelope _ text); auto.
  - intros ->. discriminate Hparse.
  - subst envelope. rewrite field_obj_set by discriminate.
    unfold field. simpl. by rewrite own_property_obj_set_same.
  - subst envelope. by rewrite !field_obj_set by discriminate.
Qed.

Lemma get_no_local_expiry_witness :
  isReady (stored_world expired_text) = true
  /\ generateKey JUndefined test_key = Ok (str "test:x")
  /\ item_present (field (JObj [(str "item", JStr (str "x"))]) "item") = true
  /\ truthy (JNum 1) = true
  /\ fst (client_get (str "test:x") (client (stored_world expired_text))) = Ok (Some expired_text)
  /\ fst (get JUndefined test_key
            (World (client (stored_world expired_text)) 1800000000000 []))
     = Ok (Some (JObj [(str "item", JStr (str "x")); (str "stored", JNum 1);
                       (str "ttl", JNum 1)])).
Proof.
  split; [reflexivity|]. split; [reflexivity|]. split; [reflexivity|].
  split; [reflexivity|]. split; [reflexivity|].
  apply (get_no_local_expiry JUndefined test_key (str "test:x")
           (stored_world expired_text) expired_text
           [(str "item", JStr (str "x"))]
           (JNum 1) (JNum 1) 1800000000000); reflexivity.
Defined.

(** ** Percent-encoding is injective and never writes a colon *)

Lemma list_length_ind {A : Type} (P : list A -> Prop) :
  (forall l, (forall l', (length l' < length l)%nat -> P l') -> P l) ->
  forall l, P l.
Proof.
  intros Hstep l.
  assert (Hall : forall n l', (length l' < n)%nat -> P l').
  { induction n as [|n IHn]; intros l' Hlen; [lia|].
    apply Hstep. intros l'' Hlen'. apply IHn. lia. }
  apply (Hall (S (length l))). lia.
Qed.

Lemma Encode_cons c rest :
  Encode (c :: rest)
  = if uriUnescaped c then r ← Encode rest; Ok (c :: r)
    else if is_low_surrogate c then Err URIError
    else if is_high_surrogate c then
      match rest with
      | d :: rest' =>
          if is_low_surrogate d then
            r ← Encode rest'; Ok (percent_all (utf8 (pair_code_point c d)) ++ r)
          else Err URIError
      | [] => Err URIError
      end
    else r ← Encode rest; Ok (percent_all (utf8 c) ++ r).
Proof. reflexivity. Qed.

Lemma tokens_cons c rest :
  tokens (c :: rest)
  = if uriUnescaped c then ts ← tokens rest; Ok (Plain c :: ts)
    else if is_low_surrogate c then Err URIError
    else if is_high_surrogate c then
      match rest with
      | d :: rest' =>
          if is_low_surrogate d then
            ts ← tokens rest'; Ok (Escaped (pair_code_point c d) :: ts)
          else Err URIError
      | [] => Err URIError
      end
    else ts ← tokens rest; Ok (Escaped c :: ts).
Proof. reflexivity. Qed.

Lemma Encode_tokens s :
  Encode s = (ts ← tokens s; Ok (render_all ts)).
Proof.
  induction s as [s IH] using list_length_ind.
  destruct s as [|c rest]; [reflexivity|].
  rewrite Encode_cons, tokens_cons.
  destruct (uriUnescaped c).
  { rewrite (IH rest) by (simpl; lia). by destruct (tokens rest). }
  destruct (is_low_surrogate c); [reflexivity|].
  destruct (is_high_surrogate c).
  - destruct rest as [|d rest']; [reflexivity|].
    destruct (is_low_surrogate d); [|reflexivity].
    rewrite (IH rest') by (simpl; lia). by destruct (tokens rest').
  - rewrite (IH rest) by (simpl; lia). by destruct (tokens rest).
Qed.

Lemma is_high_surrogate_true c :
  is_high_surrogate c = true -> 55296 <= c <= 56319.
Proof. unfold is_high_surrogate. rewrite andb_true_iff, !Z.leb_le. done. Qed.

Lemma is_low_surrogate_true c :
  is_low_surrogate c = true -> 56320 <= c <= 57343.
Proof. unfold is_low_surrogate. rewrite andb_true_iff, !Z.leb_le. done. Qed.

Lemma uriUnescaped_range c : uriUnescaped c = true -> 33 <= c <= 126.
Proof.
  unfold uriUnescaped. simpl.
  rewrite !orb_true_iff, !andb_true_iff, !Z.leb_le, !Z.eqb_eq. lia.
Qed.

(** The tokens of a string of code units are valid and spell the string. *)
Lemma tokens_spec s ts :
  Forall code_unit s -> tokens s = Ok ts ->
  Forall valid_token ts /\ List.concat (List.map units ts) = s.
Proof.
  revert ts. induction s as [s IH] using list_length_ind. intros ts Hwf.
  destruct s as [|c rest]; [intros [= <-]; by split|].
  apply Forall_cons in Hwf as [Hc Hrest]. unfold code_unit in Hc.
  rewrite tokens_cons.
  destruct (uriUnescaped c) eqn:Hu.
  { destruct (tokens rest) as [ts'|] eqn:Ht; [|discriminate].
    intros [= <-].
    destruct (IH rest ltac:(simpl; lia) ts' Hrest Ht) as [Hv Hs].
    split; [by constructor|]. simpl. by rewrite Hs. }
  destruct (is_low_surrogate c) eqn:Hlow; [discriminate|].
  destruct (is_high_surrogate c) eqn:Hhigh.
  - destruct rest as [|d rest']; [discriminate|].
    destruct (is_low_surrogate d) eqn:Hd; [|discriminate].
    apply Forall_cons in Hrest as [_ Hrest'].
    destruct (tokens rest') as [ts'|] eqn:Ht; [|discriminate].
    intros [= <-].
    destruct (IH rest' ltac:(simpl; lia) ts' Hrest' Ht) as [Hv Hs].
    apply is_high_surrogate_true in Hhigh.
    apply is_low_surrogate_true in Hd.
    assert (Hcp : 65536 <= pair_code_point c d < 1114112)
      by (unfold pair_code_point; lia).
    split.
    + constructor; [|done]. split; [lia|].
      destruct (uriUnescaped (pair_code_point c d)) eqn:Hx; [|done].
      apply uriUnescaped_range in Hx. lia.
    + simpl. rewrite Hs.
      destruct (Z.ltb_spec (pair_code_point c d) 65536); [lia|].
      unfold pair_code_point.
      replace ((c - 55296) * 1024 + (d - 56320) + 65536 - 65536)
        with ((d - 56320) + (c - 55296) * 1024) by lia.
      rewrite Z.div_add, Z.mod_add by lia.
      rewrite Z.div_small, Z.mod_small by lia.
      replace (55296 + (0 + (c - 55296))) with c by lia.
      replace (56320 + (d - 56320)) with d by lia. reflexivity.
  - destruct (tokens rest) as [ts'|] eqn:Ht; [|discriminate].
    intros [= <-].
    destruct (IH rest ltac:(simpl; lia) ts' Hrest Ht) as [Hv Hs].
    split; [constructor; [split; [lia|done]|done]|].
    simpl. rewrite Hs.
    destruct (Z.ltb_spec c 65536); [reflexivity|lia].
Qed.

Lemma hex_digit_range d :
  0 <= d < 16 -> 48 <= hex_digit d <= 57 \/ 65 <= hex_digit d <= 70.
Proof. intros Hd. unfold hex_digit. destruct (Z.ltb_spec d 10); lia. Qed.

Lemma hex_digit_inj a b :
  0 <= a < 16 -> 0 <= b < 16 -> hex_digit a = hex_digit b -> a = b.
Proof.
  intros Ha Hb. unfold hex_digit.
  destruct (Z.ltb_spec a 10), (Z.ltb_spec b 10); lia.
Qed.

Lemma percent_all_cons_app a o t :
  percent_all (a :: o) ++ t
  = 37 :: hex_digit (a / 16) :: hex_digit (a mod 16) :: (percent_all o ++ t).
Proof. reflexivity. Qed.

(** Two escapes that start the same text start with the same octet. *)
Lemma percent_head_inj a b o1 o2 t1 t2 :
  0 <= a < 256 -> 0 <= b < 256 ->
  percent_all (a :: o1) ++ t1 = percent_all (b :: o2) ++ t2 ->
  a = b /\ percent_all o1 ++ t1 = percent_all o2 ++ t2.
Proof.
  intros Ha Hb. rewrite !percent_all_cons_app. intros [= Hhi Hlo Hrest].
  split; [|exact Hrest].
  apply hex_digit_inj in Hhi; [|Z.div_mod_to_equations; lia..].
  apply hex_digit_inj in Hlo; [|Z.div_mod_to_equations; lia..].
  Z.div_mod_to_equations; lia.
Qed.

(** The four shapes of the UTF-8 encoding. *)
Lemma utf8_cases cp :
  0 <= cp < 1114112 ->
  (cp < 128 /\ utf8 cp = [cp])
  \/ (128 <= cp < 2048 /\ utf8 cp = [192 + cp / 64; 128 + cp mod 64])
  \/ (2048 <= cp < 65536
      /\ utf8 cp = [224 + cp / 4096; 128 + (cp / 64) mod 64; 128 + cp mod 64])
  \/ (65536 <= cp
      /\ utf8 cp = [240 + cp / 262144; 128 + (cp / 4096) mod 64;
                    128 + (cp / 64) mod 64; 128 + cp mod 64]).
Proof.
  intros Hcp. unfold utf8.
  destruct (Z.ltb_spec cp 128); [by left|].
  destruct (Z.ltb_spec cp 2048); [right; by left|].
  destruct (Z.ltb_spec cp 65536); [right; right; by left|].
  right; right; by right.
Qed.

Lemma utf8_octets cp :
  0 <= cp < 1114112 -> Forall (fun b => 0 <= b < 256) (utf8 cp).
Proof.
  intros Hcp.
  destruct (utf8_cases cp Hcp) as [[? ->]|[[? ->]|[[? ->]|[? ->]]]];
    repeat constructor; Z.div_mod_to_equations; lia.
Qed.

Ltac peel_octet H :=
  apply percent_head_inj in H as [? H]; [|Z.div_mod_to_equations; lia..].

(** The escape of a code point fixes the code point and where it ends. *)
Lemma escaped_inj cp1 cp2 t1 t2 :
  0 <= cp1 < 1114112 -> 0 <= cp2 < 1114112 ->
  percent_all (utf8 cp1) ++ t1 = percent_all (utf8 cp2) ++ t2 ->
  cp1 = cp2 /\ t1 = t2.
Proof.
  intros H1 H2 Heq.
  destruct (utf8_cases cp1 H1) as [[? E1]|[[? E1]|[[? E1]|[? E1]]]];
    destruct (utf8_cases cp2 H2) as [[? E2]|[[? E2]|[[? E2]|[? E2]]]];
    rewrite E1, E2 in Heq; clear E1 E2;
    peel_octet Heq;
    try (exfalso; Z.div_mod_to_equations; lia);
    repeat peel_octet Heq;
    (split; [Z.div_mod_to_equations; lia|exact Heq]).
Qed.

Lemma escaped_head cp t :
  0 <= cp < 1114112 ->
  exists x y rest, percent_all (utf8 cp) ++ t = 37 :: x :: y :: rest.
Proof.
  intros Hcp.
  destruct (utf8_cases cp Hcp) as [[? ->]|[[? ->]|[[? ->]|[? ->]]]];
    rewrite percent_all_cons_app; eauto.
Qed.

Lemma render_all_cons t ts : render_all (t :: ts) = render t ++ render_all ts.
Proof. reflexivity. Qed.

(** A rendered token is not empty: it is one unescaped character or starts
    with a percent sign. *)
Lemma render_head t rest :
  valid_token t ->
  exists x tail, render t ++ rest = x :: tail
                 /\ (x = 37 \/ t = Plain x).
Proof.
  destruct t as [c|cp]; simpl; intros Hv.
  - exists c, rest. split; [reflexivity|by right].
  - destruct (escaped_head cp rest (proj1 Hv)) as (x & y & tail & E).
    rewrite E. exists 37, (x :: y :: tail). split; [reflexivity|by left].
Qed.

(** Rendering is injective on valid tokens. *)
Lemma render_all_inj ts1 ts2 :
  Forall valid_token ts1 -> Forall valid_token ts2 ->
  render_all ts1 = render_all ts2 -> ts1 = ts2.
Proof.
  intros Hv1. revert ts2.
  induction Hv1 as [|t1 ts1 Ht1 _ IH]; intros ts2 Hv2 Heq.
  - destruct Hv2 as [|t2 ts2 Ht2 _]; [reflexivity|].
    rewrite render_all_cons in Heq.
    destruct (render_head t2 (render_all ts2) Ht2) as (x & tail & E & _).
    rewrite E in Heq. discriminate.
  - destruct Hv2 as [|t2 ts2 Ht2 Hv2]; rewrite render_all_cons in Heq.
    { destruct (render_head t1 (render_all ts1) Ht1) as (x & tail & E & _).
      rewrite E in Heq. discriminate. }
    rewrite render_all_cons in Heq.
    destruct t1 as [c1|cp1], t2 as [c2|cp2].
    + injection Heq as -> Hrest. f_equal. by apply IH.
    + exfalso.
      destruct (escaped_head cp2 (render_all ts2) (proj1 Ht2))
        as (x & y & tail & E).
      simpl in Heq. rewrite E in Heq. injection Heq as -> _.
      discriminate Ht1.
    + exfalso.
      destruct (escaped_head cp1 (render_all ts1) (proj1 Ht1))
        as (x & y & tail & E).
      simpl in Heq. rewrite E in Heq. injection Heq as <- _.
      discriminate Ht2.
    + simpl in Heq.
      apply escaped_inj in Heq as [-> Hrest];
        [|exact (proj1 Ht1)|exact (proj1 Ht2)].
      f_equal. by apply IH.
Qed.

(** [Encode] is injective on strings of code units. *)
Lemma Encode_inj s1 s2 t :
  Forall code_unit s1 -> Forall code_unit s2 ->
  Encode s1 = Ok t -> Encode s2 = Ok t -> s1 = s2.
Proof.
  intros Hw1 Hw2. rewrite !Encode_tokens.
  destruct (tokens s1) as [ts1|] eqn:E1; [|discriminate].
  destruct (tokens s2) as [ts2|] eqn:E2; [|discriminate].
  intros [= <-] [= Heq].
  destruct (tokens_spec s1 ts1 Hw1 E1) as [Hv1 <-].
  destruct (tokens_spec s2 ts2 Hw2 E2) as [Hv2 <-].
  by rewrite (render_all_inj ts1 ts2 Hv1 Hv2).
Qed.

Lemma percent_all_no_colon o :
  Forall (fun b => 0 <= b < 256) o -> ~ In 58 (percent_all o).
Proof.
  induction 1 as [|b o Hb _ IH]; [intros []|].
  change (percent_all (b :: o))
    with (37 :: hex_digit (b / 16) :: hex_digit (b mod 16) :: percent_all o).
  intros [Hx|[Hx|[Hx|Hx]]]; [discriminate| | |by apply IH].
  - destruct (hex_digit_range (b / 16)); [Z.div_mod_to_equations|..]; lia.
  - destruct (hex_digit_range (b mod 16)); [Z.div_mod_to_equations|..]; lia.
Qed.

Lemma render_all_no_colon ts :
  Forall valid_token ts -> ~ In 58 (render_all ts).
Proof.
  induction 1 as [|t ts Ht _ IH]; [intros []|].
  rewrite render_all_cons, in_app_iff. intros [Hin|Hin]; [|by apply IH].
  destruct t as [c|cp]; simpl in Hin, Ht.
  - destruct Hin as [Hc|[]]. subst c. discriminate Ht.
  - revert Hin. apply percent_all_no_colon, utf8_octets. tauto.
Qed.

(** An encoded component holds no colon. *)
Lemma Encode_no_colon s t :
  Forall code_unit s -> Encode s = Ok t -> ~ In 58 t.
Proof.
  intros Hw. rewrite Encode_tokens.
  destruct (tokens s) as [ts|] eqn:E; [|discriminate].
  intros [= <-]. apply render_all_no_colon.
  by destruct (tokens_spec s ts Hw E).
Qed.

(** A text is cut at its first colon in one way only. *)
Lemma split_at_colon (a1 a2 b1 b2 : jsstring) :
  ~ In 58 a1 -> ~ In 58 a2 ->
  a1 ++ 58 :: b1 = a2 ++ 58 :: b2 -> a1 = a2 /\ b1 = b2.
Proof.
  revert a2. induction a1 as [|x a1 IH]; intros a2 H1 H2 Heq.
  - destruct a2 as [|y a2]; simpl in Heq.
    + injection Heq as ->. by split.
    + injection Heq as <- _. exfalso. apply H2. by left.
  - destruct a2 as [|y a2]; simpl in Heq.
    + injection Heq as -> _. exfalso. apply H1. by left.
    + injection Heq as -> Hrest.
      destruct (IH a2) as [-> ->]; auto.
      * intros Hin. apply H1. by right.
      * intros Hin. apply H2. by right.
Qed.

Lemma generateKey_cache_key partition segment id :
  generateKey partition (cache_key segment id)
  = (parts ← (if truthy partition
              then p ← encodeURIComponent partition; Ok [p]
              else Ok []);
     s ← Encode segment;
     i ← Encode id;
     Ok (join (str ":") (parts ++ [s; i]))).
Proof. reflexivity. Qed.

(** C8: [generateKey] is a function of the partition and the key alone, and
    under one partition two keys with string segment and id that differ in
    segment or in id never get the same storage key: each component is
    percent-encoded, so the colons of the result are the two separators. *)
Theorem generateKey_injective (partition : jsval)
    (segment1 id1 segment2 id2 k1 k2 : jsstring) :
  Forall code_unit segment1 -> Forall code_unit id1 ->
  Forall code_unit segment2 -> Forall code_unit id2 ->
  generateKey partition (cache_key segment1 id1) = Ok k1 ->
  generateKey partition (cache_key segment2 id2) = Ok k2 ->
  (segment1 = segment2 -> id1 = id2 -> k1 = k2)
  /\ (segment1 <> segment2 \/ id1 <> id2 -> k1 <> k2).
Proof.
  intros Hs1 Hi1 Hs2 Hi2 Hk1 Hk2. split.
  { intros -> ->. congruence. }
  intros Hdiff ->.
  rewrite generateKey_cache_key in Hk1, Hk2.
  assert (Hsame : forall (prefix : jsstring),
    (s ← Encode segment1; i ← Encode id1; Ok (prefix ++ s ++ 58 :: i))
    = Ok k2 ->
    (s ← Encode segment2; i ← Encode id2; Ok (prefix ++ s ++ 58 :: i))
    = Ok k2 ->
    segment1 = segment2 /\ id1 = id2).
  { intros prefix H1 H2.
    destruct (Encode segment1) as [s1|] eqn:Es1; [|discriminate].
    destruct (Encode id1) as [i1|] eqn:Ei1; [|discriminate].
    destruct (Encode segment2) as [s2|] eqn:Es2; [|discriminate].
    destruct (Encode id2) as [i2|] eqn:Ei2; [|discriminate].
    simpl in H1, H2. rewrite <- H1 in H2. injection H2 as Heq.
    apply app_inv_head in Heq.
    pose proof (Encode_no_colon segment1 s1 Hs1 Es1) as Hn1.
    pose proof (Encode_no_colon segment2 s2 Hs2 Es2) as Hn2.
    apply split_at_colon in Heq as [-> ->]; [|done..].
    split; [exact (Encode_inj _ _ _ Hs1 Hs2 Es1 Es2)|].
    exact (Encode_inj _ _ _ Hi1 Hi2 Ei1 Ei2). }
  destruct (truthy partition).
  - destruct (encodeURIComponent partition) as [p|] eqn:Ep; [|discriminate].
    destruct (Hsame (p ++ [58])) as [-> ->].
    + destruct (Encode segment1); [|done]. destruct (Encode id1); [|done].
      simpl in *. by rewrite <- app_assoc.
    + destruct (Encode segment2); [|done]. destruct (Encode id2); [|done].
      simpl in *. by rewrite <- app_assoc.
    + by destruct Hdiff.
  - destruct (Hsame []) as [-> ->].
    + destruct (Encode segment1); [|done]. by destruct (Encode id1).
    + destruct (Encode segment2); [|done]. by destruct (Encode id2).
    + by destruct Hdiff.
Qed.

Lemma generateKey_injective_witness :
  Forall code_unit (str "a:b") /\ Forall code_unit (str "c")
  /\ Forall code_unit (str "a") /\ Forall code_unit (str "b:c")
  /\ generateKey (JStr (str "foo")) (cache_key (str "a:b") (str "c"))
     = Ok (str "foo:a%3Ab:c")
  /\ generateKey (JStr (str "foo")) (cache_key (str "a") (str "b:c"))
     = Ok (str "foo:a:b%3Ac")
  /\ str "foo:a%3Ab:c" <> str "foo:a:b%3Ac".
Proof.
  assert (H1 : Forall code_unit (str "a:b"))
    by (repeat constructor; unfold code_unit; lia).
  assert (H2 : Forall code_unit (str "c"))
    by (repeat constructor; unfold code_unit; lia).
  assert (H3 : Forall code_unit (str "a"))
    by (repeat constructor; unfold code_unit; lia).
  assert (H4 : Forall code_unit (str "b:c"))
    by (repeat constructor; unfold code_unit; lia).
  split; [exact H1|]. split; [exact H2|]. split; [exact H3|].
  split; [exact H4|]. split; [reflexivity|]. split; [reflexivity|].
  apply (generateKey_injective (JStr (str "foo")) (str "a:b") (str "c")
           (str "a") (str "b:c") (str "foo:a%3Ab:c") (str "foo:a:b%3Ac")
           H1 H2 H3 H4); [reflexivity|reflexivity|].
  left. discriminate.
Defined.

(** ** Numbers print and parse back *)

Lemma str_uint d : str (NilEmpty.string_of_uint d) = uint_units d.
Proof.
  induction d; simpl; try reflexivity;
    match goal with
    | |- str (String ?a ?s) = _ =>
        change (str (String a s)) with (Z.of_N (N_of_ascii a) :: str s)
    end; rewrite IHd; reflexivity.
Qed.

Lemma parse_digits_uint d acc rest :
  ends_number rest ->
  parse_digits acc (uint_units d ++ rest) = (uint_acc d acc, rest).
Proof.
  intros Hend. revert acc.
  induction d; intros acc; simpl;
    try (rewrite IHd; f_equal; f_equal; lia).
  destruct rest as [|c rest]; [reflexivity|].
  simpl. destruct Hend as [-> _]. reflexivity.
Qed.

Lemma uint_acc_pos d p : uint_acc d (Z.pos p) = Z.pos (Pos.of_uint_acc d p).
Proof.
  revert p. induction d; intros p; simpl; try reflexivity;
    rewrite <- IHd; f_equal; lia.
Qed.

Lemma nzhead_no_zero d l : Decimal.nzhead d <> Decimal.D0 l.
Proof. induction d; simpl; try discriminate. exact IHd. Qed.

(** The numeral of a positive number has no leading zero. *)
Lemma to_uint_no_leading_zero p l : Pos.to_uint p <> Decimal.D0 l.
Proof.
  intros E.
  pose proof (DecimalPos.Unsigned.to_of (Pos.to_uint p)) as Hnorm.
  rewrite DecimalPos.Unsigned.of_to in Hnorm. simpl in Hnorm.
  rewrite E in Hnorm. unfold Decimal.unorm in Hnorm. simpl in Hnorm.
  destruct (Decimal.nzhead l) as [|u|u|u|u|u|u|u|u|u|u] eqn:Hnz;
    try discriminate Hnorm.
  - injection Hnorm as ->. by apply (DecimalPos.Unsigned.to_uint_nonzero p).
  - by apply (nzhead_no_zero l u).
Qed.

(** A positive number is read back from its numeral. *)
Lemma parse_pos_numeral p rest :
  ends_number rest ->
  exists c tl,
    uint_units (Pos.to_uint p) = c :: tl
    /\ is_digit c = true /\ c <> 48
    /\ parse_digits (c - 48) (tl ++ rest) = (Z.pos p, rest).
Proof.
  intros Hend.
  pose proof (DecimalPos.Unsigned.of_to p) as Hof.
  destruct (Pos.to_uint p) as [|l|l|l|l|l|l|l|l|l|l] eqn:E;
    [by destruct (DecimalPos.Unsigned.to_uint_nonnil p)
    |by destruct (to_uint_no_leading_zero p l)
    |..].
  all: simpl in Hof; injection Hof as Hof.
  all: eexists _, _; split; [reflexivity|].
  all: split; [reflexivity|]; split; [discriminate|].
  all: rewrite parse_digits_uint by done.
  all: f_equal.
  all: match goal with
       | |- context [?a - 48] =>
           let v := eval vm_compute in (a - 48) in change (a - 48) with v
       end.
  all: rewrite uint_acc_pos; by rewrite Hof.
Qed.

Lemma number_to_string_pos p :
  number_to_string (Z.pos p) = uint_units (Pos.to_uint p).
Proof.
  unfold number_to_string. simpl. unfold NilZero.string_of_uint.
  destruct (Pos.to_uint p) eqn:E; try (rewrite <- E at 1; rewrite str_uint; by rewrite E).
  by destruct (DecimalPos.Unsigned.to_uint_nonnil p).
Qed.

Lemma number_to_string_neg p :
  number_to_string (Z.neg p) = 45 :: uint_units (Pos.to_uint p).
Proof.
  rewrite <- number_to_string_pos. reflexivity.
Qed.

Lemma parse_number_digit d rest :
  is_digit d = true ->
  parse_number (d :: rest)
  = (let '(n, rest') :=
       if d =? 48 then (0, rest) else parse_digits (d - 48) rest in
     match rest' with
     | c :: _ =>
         if existsb (Z.eqb c) [46; 101; 69] then None else Some (n, rest')
     | [] => Some (n, [])
     end).
Proof.
  intros Hd. unfold parse_number.
  destruct (Z.eqb_spec d 45) as [->|_]; [discriminate Hd|].
  rewrite Hd. by destruct (if d =? 48 then _ else _).
Qed.

Lemma parse_number_minus d rest :
  is_digit d = true ->
  parse_number (45 :: d :: rest)
  = (let '(n, rest') :=
       if d =? 48 then (0, rest) else parse_digits (d - 48) rest in
     match rest' with
     | c :: _ =>
         if existsb (Z.eqb c) [46; 101; 69] then None else Some (- n, rest')
     | [] => Some (- n, [])
     end).
Proof.
  intros Hd. unfold parse_number.
  change (45 =? 45) with true. cbv iota beta.
  rewrite Hd. by destruct (if d =? 48 then _ else _).
Qed.

Lemma ends_number_finish (n : Z) rest :
  ends_number rest ->
  match rest with
  | c :: _ =>
      if existsb (Z.eqb c) [46; 101; 69] then None else Some (n, rest)
  | [] => Some (n, [])
  end = Some (n, rest).
Proof.
  destruct rest as [|c r]; [reflexivity|]. by intros [_ ->].
Qed.

(** [parse_number] reads a printed integer back. *)
Lemma parse_number_to_string n rest :
  ends_number rest ->
  parse_number (number_to_string n ++ rest) = Some (n, rest).
Proof.
  intros Hend. destruct n as [|p|p].
  - change (number_to_string 0 ++ rest) with (48 :: rest).
    rewrite parse_number_digit by reflexivity.
    change (48 =? 48) with true. cbv iota beta.
    by apply ends_number_finish.
  - rewrite number_to_string_pos.
    destruct (parse_pos_numeral p rest Hend) as (c & tl & -> & Hd & Hz & Hp).
    change ((c :: tl) ++ rest) with (c :: tl ++ rest).
    rewrite parse_number_digit by done.
    apply Z.eqb_neq in Hz. rewrite Hz, Hp.
    by apply ends_number_finish.
  - rewrite number_to_string_neg.
    destruct (parse_pos_numeral p rest Hend) as (c & tl & -> & Hd & Hz & Hp).
    change ((45 :: c :: tl) ++ rest) with (45 :: c :: tl ++ rest).
    rewrite parse_number_minus by done.
    apply Z.eqb_neq in Hz. rewrite Hz, Hp.
    by apply (ends_number_finish (- Z.pos p)).
Qed.

(** ** Strings quote and parse back *)

Ltac bool_lia :=
  rewrite ?andb_true_iff, ?orb_true_iff, ?andb_false_iff, ?orb_false_iff,
    ?Z.leb_le, ?Z.ltb_lt, ?Z.eqb_eq, ?Z.leb_gt, ?Z.ltb_ge, ?Z.eqb_neq;
  lia.

Lemma hex_value_lower d :
  0 <= d < 16 -> hex_value (hex_digit_lower d) = Some d.
Proof.
  intros Hd. unfold hex_value, hex_digit_lower, is_digit.
  destruct (Z.ltb_spec d 10).
  - replace ((48 <=? 48 + d) && (48 + d <=? 57)) with true
      by (symmetry; bool_lia).
    f_equal. lia.
  - replace ((48 <=? 87 + d) && (87 + d <=? 57)) with false
      by (symmetry; bool_lia).
    replace ((65 <=? 87 + d) && (87 + d <=? 70)) with false
      by (symmetry; bool_lia).
    replace ((97 <=? 87 + d) && (87 + d <=? 102)) with true
      by (symmetry; bool_lia).
    f_equal. lia.
Qed.

(** A character written as it is, is read as it is. *)
Lemma parse_chars_literal c t :
  32 <= c -> c <> 34 -> c <> 92 ->
  parse_chars (c :: t) = ('(t', r) ← parse_chars t; Some (c :: t', r)).
Proof.
  intros H32 H34 H92. simpl.
  replace (c =? 34) with false by (symmetry; bool_lia).
  replace (c <? 32) with false by (symmetry; bool_lia).
  replace (c =? 92) with false by (symmetry; bool_lia).
  reflexivity.
Qed.

(** A [\uXXXX] escape is read as its code unit. *)
Lemma parse_chars_unicode_escape c t :
  code_unit c ->
  parse_chars (unicode_escape c ++ t)
  = ('(t', r) ← parse_chars t; Some (c :: t', r)).
Proof.
  unfold code_unit. intros Hc.
  change (unicode_escape c ++ t)
    with (92 :: 117 :: hex_digit_lower (c / 4096)
            :: hex_digit_lower ((c / 256) mod 16)
            :: hex_digit_lower ((c / 16) mod 16)
            :: hex_digit_lower (c mod 16) :: t).
  cbn [parse_chars].
  change (92 =? 34) with false. change (92 <? 32) with false.
  change (92 =? 92) with true. change (117 =? 117) with true.
  cbv iota beta.
  rewrite !hex_value_lower by (Z.div_mod_to_equations; lia).
  cbn [mbind option_bind].
  replace (c / 4096 * 4096 + (c / 256) mod 16 * 256 + (c / 16) mod 16 * 16
           + c mod 16) with c by (Z.div_mod_to_equations; lia).
  reflexivity.
Qed.

(** What [quote_unit] writes for a character is read as that character. *)
Lemma parse_chars_quote_unit c t :
  code_unit c ->
  parse_chars (quote_unit c ++ t)
  = ('(t', r) ← parse_chars t; Some (c :: t', r)).
Proof.
  intros Hc. unfold quote_unit.
  destruct (Z.eqb_spec c 8) as [->|?]; [reflexivity|].
  destruct (Z.eqb_spec c 9) as [->|?]; [reflexivity|].
  destruct (Z.eqb_spec c 10) as [->|?]; [reflexivity|].
  destruct (Z.eqb_spec c 12) as [->|?]; [reflexivity|].
  destruct (Z.eqb_spec c 13) as [->|?]; [reflexivity|].
  destruct (Z.eqb_spec c 34) as [->|?]; [reflexivity|].
  destruct (Z.eqb_spec c 92) as [->|?]; [reflexivity|].
  destruct (Z.ltb_spec c 32).
  - by apply parse_chars_unicode_escape.
  - by apply parse_chars_literal.
Qed.

Lemma quote_units_cons c rest :
  quote_units (c :: rest)
  = if is_high_surrogate c then
      match rest with
      | d :: rest' =>
          if is_low_surrogate d then c :: d :: quote_units rest'
          else unicode_escape c ++ quote_units rest
      | [] => unicode_escape c
      end
    else if is_low_surrogate c then unicode_escape c ++ quote_units rest
    else quote_unit c ++ quote_units rest.
Proof. destruct rest; reflexivity. Qed.

(** [parse_chars] reads a quoted string back, up to its closing quote. *)
Lemma parse_chars_quote_units s rest :
  Forall code_unit s ->
  parse_chars (quote_units s ++ 34 :: rest) = Some (s, rest).
Proof.
  induction s as [s IH] using list_length_ind. intros Hwf.
  destruct s as [|c s']; [reflexivity|].
  apply Forall_cons in Hwf as [Hc Hs'].
  rewrite quote_units_cons.
  destruct (is_high_surrogate c) eqn:Hhigh.
  - apply is_high_surrogate_true in Hhigh.
    destruct s' as [|d s''].
    + rewrite parse_chars_unicode_escape by done. reflexivity.
    + destruct (is_low_surrogate d) eqn:Hlow.
      * apply is_low_surrogate_true in Hlow.
        apply Forall_cons in Hs' as [Hd Hs''].
        change ((c :: d :: quote_units s'') ++ 34 :: rest)
          with (c :: d :: (quote_units s'' ++ 34 :: rest)).
        rewrite parse_chars_literal by lia.
        rewrite parse_chars_literal by lia.
        rewrite (IH s'') by (done || (simpl; lia)). reflexivity.
      * rewrite <- app_assoc, parse_chars_unicode_escape by done.
        rewrite (IH (d :: s'')) by (done || (simpl; lia)). reflexivity.
  - destruct (is_low_surrogate c) eqn:Hlow.
    + rewrite <- app_assoc, parse_chars_unicode_escape by done.
      rewrite (IH s') by (done || (simpl; lia)). reflexivity.
    + rewrite <- app_assoc, parse_chars_quote_unit by done.
      rewrite (IH s') by (done || (simpl; lia)). reflexivity.
Qed.

(** ** Values serialise and parse back *)

Lemma skip_ws_head c tl : is_ws c = false -> skip_ws (c :: tl) = c :: tl.
Proof. intros Hc. simpl. by rewrite Hc. Qed.

Lemma parse_value_string fuel t :
  parse_value (S fuel) (34 :: t)
  = ('(s, r) ← parse_chars t; Some (JStr s, r)).
Proof. reflexivity. Qed.

Lemma parse_value_array fuel t :
  parse_value (S fuel) (91 :: t)
  = match skip_ws t with
    | d :: r =>
        if d =? 93 then Some (JArr [], r)
        else '(vs, r') ← parse_elements (parse_value fuel) (length t) t;
             Some (JArr vs, r')
    | [] => None
    end.
Proof. reflexivity. Qed.

Lemma parse_value_object fuel t :
  parse_value (S fuel) (123 :: t)
  = match skip_ws t with
    | d :: r =>
        if d =? 125 then Some (JObj [], r)
        else '(fs, r') ← parse_members (parse_value fuel) (length t) [] t;
             Some (JObj fs, r')
    | [] => None
    end.
Proof. reflexivity. Qed.

Lemma parse_value_array_elements fuel t c r :
  skip_ws t = c :: r -> c <> 93 ->
  parse_value (S fuel) (91 :: t)
  = ('(vs, r') ← parse_elements (parse_value fuel) (length t) t;
     Some (JArr vs, r')).
Proof.
  intros Hs Hc. rewrite parse_value_array, Hs.
  by replace (c =? 93) with false by (symmetry; by apply Z.eqb_neq).
Qed.

Lemma parse_value_object_members fuel t c r :
  skip_ws t = c :: r -> c <> 125 ->
  parse_value (S fuel) (123 :: t)
  = ('(fs, r') ← parse_members (parse_value fuel) (length t) [] t;
     Some (JObj fs, r')).
Proof.
  intros Hs Hc. rewrite parse_value_object, Hs.
  by replace (c =? 125) with false by (symmetry; by apply Z.eqb_neq).
Qed.

Lemma parse_value_number fuel c t :
  is_digit c = true \/ c = 45 ->
  parse_value (S fuel) (c :: t)
  = ('(n, r) ← parse_number (c :: t); Some (JNum n, r)).
Proof.
  intros Hc.
  assert (Hrange : 45 <= c <= 57).
  { destruct Hc as [Hd| ->]; [|lia].
    unfold is_digit in Hd. apply andb_true_iff in Hd as [H1 H2].
    apply Z.leb_le in H1, H2. lia. }
  cbn [parse_value]. rewrite skip_ws_head.
  2:{ unfold is_ws. cbn [existsb]. bool_lia. }
  replace (c =? 34) with false by (symmetry; bool_lia).
  replace (c =? 91) with false by (symmetry; bool_lia).
  replace (c =? 123) with false by (symmetry; bool_lia).
  replace (c =? 110) with false by (symmetry; bool_lia).
  replace (c =? 116) with false by (symmetry; bool_lia).
  replace (c =? 102) with false by (symmetry; bool_lia).
  reflexivity.
Qed.

(** The first character of a printed integer. *)
Lemma number_to_string_head n :
  exists c tl, number_to_string n = c :: tl /\ (is_digit c = true \/ c = 45).
Proof.
  destruct n as [|p|p].
  - exists 48, []. split; [reflexivity|by left].
  - rewrite number_to_string_pos.
    destruct (parse_pos_numeral p [] I) as (c & tl & -> & Hd & _).
    exists c, tl. split; [reflexivity|by left].
  - rewrite number_to_string_neg. eexists _, _. split; [reflexivity|by right].
Qed.

Lemma reads_back_null : reads_back JNull (str "null").
Proof.
  split; [by eexists _, _|].
  intros [|fuel] rest Hlen _; [simpl in Hlen; lia|reflexivity].
Qed.

Lemma reads_back_bool b :
  reads_back (JBool b) (if b then str "true" else str "false").
Proof.
  destruct b; (split; [by eexists _, _|]);
    intros [|fuel] rest Hlen _; (simpl in Hlen; lia) || reflexivity.
Qed.

Lemma reads_back_num n : reads_back (JNum n) (number_to_string n).
Proof.
  destruct (number_to_string_head n) as (c & tl & E & Hc).
  assert (Hrange : 45 <= c <= 57).
  { destruct Hc as [Hd| ->]; [|lia].
    unfold is_digit in Hd. apply andb_true_iff in Hd as [H1 H2].
    apply Z.leb_le in H1, H2. lia. }
  split.
  - exists c, tl. split; [exact E|].
    split; [unfold is_ws; cbn [existsb]; bool_lia|lia].
  - intros [|fuel] rest Hlen Hend; [rewrite E in Hlen; simpl in Hlen; lia|].
    pose proof (parse_number_to_string n rest Hend) as Hp.
    rewrite E in *. change ((c :: tl) ++ rest) with (c :: tl ++ rest) in *.
    rewrite parse_value_number by done. by rewrite Hp.
Qed.

Lemma reads_back_str s :
  Forall code_unit s -> reads_back (JStr s) (QuoteJSONString s).
Proof.
  intros Hs. split; [by eexists _, _|].
  intros [|fuel] rest Hlen _; [simpl in Hlen; lia|].
  unfold QuoteJSONString.
  change (([34] ++ quote_units s ++ [34]) ++ rest)
    with (34 :: ((quote_units s ++ [34]) ++ rest)).
  rewrite <- app_assoc. change ([34] ++ rest) with (34 :: rest).
  rewrite parse_value_string, parse_chars_quote_units by done.
  reflexivity.
Qed.

Lemma join_cons2 sep (a b : jsstring) rest :
  join sep (a :: b :: rest) = a ++ sep ++ join sep (b :: rest).
Proof. reflexivity. Qed.

Lemma join_length_count (ts : list jsstring) :
  (length ts <= S (length (join [44%Z] ts)))%nat.
Proof.
  induction ts as [|a [|b ts] IH]; [simpl; lia..|].
  rewrite join_cons2, !length_app. simpl in *. lia.
Qed.

Lemma join_length_part (ts : list jsstring) t :
  In t ts -> (length t <= length (join [44%Z] ts))%nat.
Proof.
  induction ts as [|a [|b ts] IH]; [intros []|intros [->|[]]; simpl; lia|].
  rewrite join_cons2, !length_app. intros [->|Hin]; [lia|].
  specialize (IH Hin). lia.
Qed.

Lemma ends_number_sep c rest :
  c = 44 \/ c = 93 \/ c = 125 -> ends_number (c :: rest).
Proof. by intros [->|[->| ->]]. Qed.

Lemma parse_elements_S pv n s :
  parse_elements pv (S n) s
  = ('(v, r) ← pv s;
     match skip_ws r with
     | c :: r' =>
         if c =? 44 then
           '(vs, r'') ← parse_elements pv n r'; Some (v :: vs, r'')
         else if c =? 93 then Some ([v], r')
         else None
     | [] => None
     end).
Proof. reflexivity. Qed.

(** The elements of a non-empty array are read back one by one. *)
Lemma parse_elements_join xs ts fuel n rest :
  Forall2 reads_back xs ts -> xs <> [] ->
  (forall t, In t ts -> (length t <= fuel)%nat) ->
  (length ts <= n)%nat ->
  parse_elements (parse_value fuel) n (join [44] ts ++ 93 :: rest)
  = Some (xs, rest).
Proof.
  intros Hall. revert n.
  induction Hall as [|x t xs ts [_ Hx] Hrest IH]; intros n Hne Hfuel Hn; [done|].
  destruct n as [|n]; [simpl in Hn; lia|].
  rewrite parse_elements_S.
  destruct Hrest as [|x2 t2 xs' ts' Hx2 Hrest'].
  - change (join [44] [t]) with t.
    rewrite (Hx fuel (93 :: rest)); [|apply Hfuel; by left|by apply ends_number_sep; auto].
    reflexivity.
  - rewrite join_cons2, <- !app_assoc.
    change ([44] ++ join [44] (t2 :: ts') ++ 93 :: rest)
      with (44 :: (join [44] (t2 :: ts') ++ 93 :: rest)).
    rewrite (Hx fuel); [|apply Hfuel; by left|by apply ends_number_sep; auto].
    cbn [mbind option_bind skip_ws is_ws existsb].
    change (44 =? 32) with false. change (44 =? 9) with false.
    change (44 =? 10) with false. change (44 =? 13) with false.
    cbn [orb]. change (44 =? 44) with true. cbv iota.
    rewrite (IH n); [reflexivity|done| |simpl in *; lia].
    intros t' Hin. apply Hfuel. by right.
Qed.

Lemma obj_set_fresh k v (acc : list (jsstring * jsval)) :
  ~ In k (List.map fst acc) -> obj_set k v acc = acc ++ [(k, v)].
Proof.
  induction acc as [|[k' w] acc IH]; [reflexivity|].
  simpl. intros Hnin. unfold jsstring_eqb. case_bool_decide as Hk.
  - subst k'. exfalso. apply Hnin. by left.
  - rewrite IH; [reflexivity|]. intros Hin. apply Hnin. by right.
Qed.

Lemma parse_members_S pv n acc s :
  parse_members pv (S n) acc s
  = match skip_ws s with
    | q :: r0 =>
        if q =? 34 then
          '(k, r1) ← parse_chars r0;
          match skip_ws r1 with
          | c :: r2 =>
              if c =? 58 then
                '(v, r3) ← pv r2;
                match skip_ws r3 with
                | d :: r4 =>
                    if d =? 44 then parse_members pv n (obj_set k v acc) r4
                    else if d =? 125 then Some (obj_set k v acc, r4)
                    else None
                | [] => None
                end
              else None
          | [] => None
          end
        else None
    | [] => None
    end.
Proof. reflexivity. Qed.

(** One member, followed by a separator, is read into the object. *)
Lemma parse_member_step kv m fuel d rest :
  member_reads_back kv m ->
  (length m <= fuel)%nat ->
  d = 44 \/ d = 125 ->
  exists r1 r2 r3,
    skip_ws (m ++ d :: rest) = 34 :: r1
    /\ parse_chars r1 = Some (fst kv, r2)
    /\ skip_ws r2 = 58 :: r3
    /\ parse_value fuel r3 = Some (snd kv, d :: rest).
Proof.
  intros (t & -> & Hk & _ & Hv) Hlen Hd.
  exists (quote_units (fst kv) ++ 34 :: 58 :: t ++ d :: rest),
    (58 :: t ++ d :: rest), (t ++ d :: rest).
  unfold QuoteJSONString. rewrite <- !app_assoc. simpl.
  split; [reflexivity|].
  split; [by apply parse_chars_quote_units|].
  split; [reflexivity|].
  apply Hv.
  - rewrite !length_app in Hlen. lia.
  - apply ends_number_sep. destruct Hd; auto.
Qed.

(** The members of a non-empty object are read back one by one. *)
Lemma parse_members_join fields ms fuel n acc rest :
  Forall2 member_reads_back fields ms -> fields <> [] ->
  (forall m, In m ms -> (length m <= fuel)%nat) ->
  (length ms <= n)%nat ->
  NoDup (List.map fst acc ++ List.map fst fields) ->
  parse_members (parse_value fuel) n acc (join [44] ms ++ 125 :: rest)
  = Some (acc ++ fields, rest).
Proof.
  intros Hall. revert n acc.
  induction Hall as [|kv m fields ms Hm Hrest IH];
    intros n acc Hne Hfuel Hn Hdup; [done|].
  destruct n as [|n]; [simpl in Hn; lia|].
  rewrite parse_members_S.
  assert (Hfresh : ~ In (fst kv) (List.map fst acc)).
  { apply NoDup_app in Hdup as (_ & Hdisj & _).
    intros Hin. apply list_elem_of_In in Hin.
    apply (Hdisj (fst kv) Hin). simpl. by left. }
  destruct Hrest as [|kv2 m2 fields' ms' Hm2 Hrest'].
  - change (join [44] [m]) with m.
    destruct (parse_member_step kv m fuel 125 rest Hm) as
      (r1 & r2 & r3 & -> & Hkey & Hcolon & Hval);
      [apply Hfuel; by left|by right|].
    change (34 =? 34) with true. cbv iota.
    rewrite Hkey. cbn [mbind option_bind]. rewrite Hcolon.
    change (58 =? 58) with true. cbv iota.
    rewrite Hval. cbn [mbind option_bind].
    rewrite obj_set_fresh by done.
    by destruct kv.
  - rewrite join_cons2, <- !app_assoc.
    change ([44] ++ join [44] (m2 :: ms') ++ 125 :: rest)
      with (44 :: (join [44] (m2 :: ms') ++ 125 :: rest)).
    destruct (parse_member_step kv m fuel 44
                (join [44] (m2 :: ms') ++ 125 :: rest) Hm) as
      (r1 & r2 & r3 & -> & Hkey & Hcolon & Hval);
      [apply Hfuel; by left|by left|].
    change (34 =? 34) with true. cbv iota.
    rewrite Hkey. cbn [mbind option_bind]. rewrite Hcolon.
    change (58 =? 58) with true. cbv iota.
    rewrite Hval. cbn [mbind option_bind].
    rewrite obj_set_fresh by done.
    cbn [skip_ws is_ws existsb].
    change (44 =? 32) with false. change (44 =? 9) with false.
    change (44 =? 10) with false. change (44 =? 13) with false.
    cbn [orb]. change (44 =? 44) with true. cbv iota.
    rewrite (IH n (acc ++ [(fst kv, snd kv)])).
    + rewrite <- app_assoc. by destruct kv.
    + done.
    + intros m' Hin. apply Hfuel. by right.
    + simpl in *. lia.
    + rewrite map_app, <- app_assoc. exact Hdup.
Qed.

Lemma join_head sep (c : Z) tl (ts : list jsstring) :
  exists r, join sep ((c :: tl) :: ts) = c :: r.
Proof. destruct ts; simpl; eauto. Qed.

Lemma array_texts items :
  Forall (fun x => json_value x ->
            exists t, SerializeJSONProperty x = Ok (Some t) /\ reads_back x t)
    items ->
  Forall json_value items ->
  exists ts, element_texts SerializeJSONProperty items = Ok ts
             /\ Forall2 reads_back items ts.
Proof.
  induction 1 as [|x items Hx _ IH]; intros Hj; [by exists []|].
  apply Forall_cons in Hj as [Hjx Hj].
  destruct (Hx Hjx) as (t & E & Hr). destruct (IH Hj) as (ts & Ets & Hts).
  exists (t :: ts). cbn [element_texts]. rewrite E.
  cbn [mbind result_bind]. rewrite Ets.
  split; [reflexivity|by constructor].
Qed.

Lemma object_texts fields :
  Forall (fun kv => json_value (snd kv) ->
            exists t, SerializeJSONProperty (snd kv) = Ok (Some t)
                      /\ reads_back (snd kv) t) fields ->
  Forall (fun kv => Forall code_unit (fst kv) /\ json_value (snd kv)) fields ->
  exists ms, member_texts SerializeJSONProperty fields = Ok ms
             /\ Forall2 member_reads_back fields ms.
Proof.
  induction 1 as [|[k x] fields Hkv _ IH]; intros Hj; [by exists []|].
  apply Forall_cons in Hj as [[Hk Hjv] Hj]. simpl in Hk, Hjv, Hkv.
  destruct (Hkv Hjv) as (t & E & Hr). destruct (IH Hj) as (ms & Ems & Hms).
  exists ((QuoteJSONString k ++ [58] ++ t) :: ms).
  cbn [member_texts fst snd]. rewrite E.
  cbn [mbind result_bind]. rewrite Ems.
  split; [reflexivity|].
  constructor; [|exact Hms].
  exists t. split; [reflexivity|]. split; [exact Hk|exact Hr].
Qed.

(** Every value of the JSON data model has a text, and the text is read
    back as the value. *)
Theorem serialize_reads_back v :
  json_value v ->
  exists t, SerializeJSONProperty v = Ok (Some t) /\ reads_back v t.
Proof.
  induction v as [| |b|n|s|items IH|fields IH|fields name]
    using jsval_nested_ind; intros Hj; [| | | | | | |inversion Hj].
  - inversion Hj.
  - exists (str "null"). split; [reflexivity|apply reads_back_null].
  - exists (if b then str "true" else str "false").
    split; [by destruct b|apply reads_back_bool].
  - exists (number_to_string n). split; [reflexivity|apply reads_back_num].
  - inversion Hj as [| | |s' Hs| |]; subst.
    exists (QuoteJSONString s). split; [reflexivity|by apply reads_back_str].
  - inversion Hj as [| | | |items' Hitems|]; subst.
    destruct (array_texts items IH Hitems) as (ts & Ets & Hts).
    exists ([91] ++ join [44] ts ++ [93]).
    split; [cbn [SerializeJSONProperty]; by rewrite Ets|].
    split; [by eexists _, _|].
    intros [|fuel] rest Hlen _; [simpl in Hlen; lia|].
    change (([91] ++ join [44] ts ++ [93]) ++ rest)
      with (91 :: ((join [44] ts ++ [93]) ++ rest)).
    rewrite <- app_assoc. change ([93] ++ rest) with (93 :: rest).
    destruct Hts as [|x t items' ts' Hx Hrest]; [reflexivity|].
    pose proof Hx as [(c & tl & Et & Hws & H93 & _) _]. subst t.
    destruct (join_head [44] c tl ts') as [r Hjoin].
    unfold jsstring in *.
    rewrite (parse_value_array_elements fuel _ c (r ++ 93 :: rest));
      [|rewrite Hjoin; by apply skip_ws_head|done].
    rewrite (parse_elements_join (x :: items') ((c :: tl) :: ts') fuel);
      [reflexivity| |done| |].
    + by constructor.
    + intros t Hin. apply join_length_part in Hin.
      rewrite !length_app in Hlen. cbn [length] in Hlen.
      unfold jsstring in *. lia.
    + pose proof (join_length_count ((c :: tl) :: ts')) as Hcount.
      rewrite !length_app. cbn [length] in *.
      unfold jsstring in *. lia.
  - inversion Hj as [| | | | |fields' Hfields Hdup]; subst.
    destruct (object_texts fields IH Hfields) as (ms & Ems & Hms).
    exists ([123] ++ join [44] ms ++ [125]).
    split; [cbn [SerializeJSONProperty]; by rewrite Ems|].
    split; [by eexists _, _|].
    intros [|fuel] rest Hlen _; [simpl in Hlen; lia|].
    change (([123] ++ join [44] ms ++ [125]) ++ rest)
      with (123 :: ((join [44] ms ++ [125]) ++ rest)).
    rewrite <- app_assoc. change ([125] ++ rest) with (125 :: rest).
    destruct Hms as [|kv m fields' ms' Hm Hrest]; [reflexivity|].
    pose proof Hm as (t & Em & _).
    assert (Em' : m = 34 :: quote_units (fst kv) ++ [34] ++ [58] ++ t).
    { rewrite Em. unfold QuoteJSONString. by rewrite <- !app_assoc. }
    destruct (join_head [44] 34 (quote_units (fst kv) ++ [34] ++ [58] ++ t) ms')
      as [r Hjoin].
    rewrite <- Em' in Hjoin.
    unfold jsstring in *.
    rewrite (parse_value_object_members fuel _ 34 (r ++ 125 :: rest));
      [|rewrite Hjoin; by apply skip_ws_head|done].
    rewrite (parse_members_join (kv :: fields') (m :: ms') fuel);
      [reflexivity| |done| | |].
    + by constructor.
    + intros m' Hin. apply join_length_part in Hin.
      rewrite !length_app in Hlen. cbn [length] in Hlen.
      unfold jsstring in *. lia.
    + pose proof (join_length_count (m :: ms')) as Hcount.
      rewrite !length_app. cbn [length] in *.
      unfold jsstring in *. lia.
    + exact Hdup.
Qed.

(** [JSON.parse] undoes [JSON.stringify] on the JSON data model. *)
Theorem JSON_parse_stringify v :
  json_value v ->
  exists text, JSON_stringify v = Ok (Some text) /\ JSON_parse text = Some v.
Proof.
  intros Hj. destruct (serialize_reads_back v Hj) as (t & E & _ & Hread).
  exists t. split; [exact E|].
  unfold JSON_parse.
  specialize (Hread (S (length t)) [] ltac:(lia) I).
  rewrite app_nil_r in Hread. by rewrite Hread.
Qed.

(** The envelope of a JSON value is a JSON value. *)
Lemma json_value_envelope value now ttl :
  json_value value -> json_value (JObj (envelope_of value now ttl)).
Proof.
  intros Hv. constructor.
  - repeat constructor; try done; simpl;
      repeat constructor; unfold code_unit; lia.
  - by apply (bool_decide_unpack _).
Qed.

(** An object of the JSON data model has a text, which parses back to the
    object. *)
Lemma SerializeJSONObject_json fields :
  json_value (JObj fields) ->
  SerializeJSONObject fields = Ok (JSON_stringify_object fields)
  /\ JSON_parse (JSON_stringify_object fields) = Some (JObj fields).
Proof.
  intros Hj.
  destruct (JSON_parse_stringify _ Hj) as (text & Htext & Hparse).
  rewrite JSON_stringify_JObj in Htext.
  unfold JSON_stringify_object.
  destruct (SerializeJSONObject fields) as [text'|e]; [|discriminate Htext].
  injection Htext as ->. by split.
Qed.

Lemma JSON_parse_envelope value now ttl :
  json_value value ->
  JSON_parse (JSON_stringify_object (envelope_of value now ttl))
  = Some (JObj (envelope_of value now ttl)).
Proof.
  intros Hv.
  by apply SerializeJSONObject_json, json_value_envelope.
Qed.

(** The envelope of an undefined value is written without its item. *)
Lemma SerializeJSONObject_undefined now ttl :
  SerializeJSONObject (envelope_of JUndefined now ttl)
  = SerializeJSONObject [(str "stored", JNum now); (str "ttl", JNum ttl)].
Proof. reflexivity. Qed.

Lemma json_value_stored_ttl now ttl :
  json_value (JObj [(str "stored", JNum now); (str "ttl", JNum ttl)]).
Proof.
  constructor.
  - repeat constructor; simpl; repeat constructor; unfold code_unit; lia.
  - by apply (bool_decide_unpack _).
Qed.

(** The envelope of an undefined value has no item. *)
Lemma JSON_parse_envelope_undefined now ttl :
  JSON_parse (JSON_stringify_object (envelope_of JUndefined now ttl))
  = Some (JObj [(str "stored", JNum now); (str "ttl", JNum ttl)]).
Proof.
  unfold JSON_stringify_object. rewrite SerializeJSONObject_undefined.
  apply (SerializeJSONObject_json _ (json_value_stored_ttl now ttl)).
Qed.

(** [JSON.stringify] accepts the envelope of every value of the JSON data
    model and of the undefined value. *)
Lemma envelope_text value now ttl :
  json_value value \/ value = JUndefined ->
  SerializeJSONObject (envelope_of value now ttl)
  = Ok (JSON_stringify_object (envelope_of value now ttl)).
Proof.
  intros [Hv| ->].
  - by apply SerializeJSONObject_json, json_value_envelope.
  - unfold JSON_stringify_object. rewrite SerializeJSONObject_undefined.
    by rewrite (proj1 (SerializeJSONObject_json _ (json_value_stored_ttl now ttl))).
Qed.

(** [JSON.stringify] refuses the envelope of a value that holds itself. *)
Lemma envelope_cycle fields name now ttl :
  SerializeJSONObject (envelope_of (JCycle fields name) now ttl) = Err TypeError.
Proof. reflexivity. Qed.

(** [JSON.stringify] throws nothing but TypeError. *)
Lemma SerializeJSONProperty_error v e :
  SerializeJSONProperty v = Err e -> e = TypeError.
Proof.
  revert e.
  induction v as [| |b|n|s|items IH|fields IH|fields name]
    using jsval_nested_ind; intros e; cbn [SerializeJSONProperty];
    try discriminate.
  - destruct b; discriminate.
  - assert (Hitems : forall e', element_texts SerializeJSONProperty items = Err e'
                                -> e' = TypeError).
    { induction IH as [|x items Hx _ IHitems]; intros e'; [discriminate|].
      cbn [element_texts].
      destruct (SerializeJSONProperty x) as [t|e0] eqn:Et.
      - destruct (element_texts SerializeJSONProperty items) as [ts|e1];
          [discriminate|].
        intros [= <-]. by apply IHitems.
      - intros [= <-]. by apply Hx. }
    destruct (element_texts SerializeJSONProperty items) as [ts|e1];
      [discriminate|].
    intros [= <-]. by apply Hitems.
  - assert (Hfields : forall e', member_texts SerializeJSONProperty fields = Err e'
                                 -> e' = TypeError).
    { induction IH as [|kv fields Hkv _ IHfields]; intros e'; [discriminate|].
      cbn [member_texts].
      destruct (SerializeJSONProperty (snd kv)) as [t|e0] eqn:Et.
      - destruct (member_texts SerializeJSONProperty fields) as [ms|e1];
          [discriminate|].
        intros [= <-]. by apply IHfields.
      - intros [= <-]. by apply Hkv. }
    destruct (member_texts SerializeJSONProperty fields) as [ms|e1];
      [discriminate|].
    intros [= <-]. by apply Hfields.
  - congruence.
Qed.

Lemma SerializeJSONObject_error fields e :
  SerializeJSONObject fields = Err e -> e = TypeError.
Proof.
  intros He. apply (SerializeJSONProperty_error (JObj fields)).
  change (SerializeJSONProperty (JObj fields)) with (JSON_stringify (JObj fields)).
  rewrite JSON_stringify_JObj. by rewrite He.
Qed.

(** ** The expiry passed to the store *)

(** C6, as the code has it: the quotient [ttl / 1000] is a double, rounded
    before it is floored.  At a ttl of 200000000000000992 milliseconds [set]
    asks for 200000000000001 seconds, one more than the whole seconds of the
    ttl. *)
Lemma set_expiry_rounded_up :
  isReady ready_world = true
  /\ 0 < 200000000000000992
  /\ Z.max 1 (200000000000000992 / 1000) = 200000000000000
  /\ expiry_seconds 200000000000000992 = 200000000000001
  /\ calls (snd (set JUndefined test_key (JStr (str "x")) 200000000000000992
                   ready_world))
     = [CallSet (str "test:x")
          (JSON_stringify_object
             (envelope_of (JStr (str "x")) 1700000000000 200000000000000992))
          "ex" 200000000000001].
Proof. vm_compute. repeat split. Qed.

(** C6, amended: for a positive ttl and a value that can be serialised,
    [set] on a ready adapter passes the store an expiry of at least 1
    second; for a ttl below [2^53] milliseconds it is exactly
    [max(1, floor(ttl / 1000))] seconds, the number of whole seconds in
    [max(1000, ttl)] milliseconds, and exactly 1 for [ttl = 1]. *)
Theorem set_expiry_seconds {C : Type} `{Client C}
    (partition key value : jsval) (ttl : Z) (w : world C)
    (cacheKey text : jsstring) :
  isReady w = true ->
  generateKey partition key = Ok cacheKey ->
  SerializeJSONObject (envelope_of value (clock w) ttl) = Ok text ->
  0 < ttl ->
  exists seconds,
    calls (snd (set partition key value ttl w))
    = calls w ++ [CallSet cacheKey text "ex" seconds]
    /\ 1 <= seconds
    /\ (ttl < 2 ^ 53 ->
        seconds = Z.max 1 (ttl / 1000)
        /\ seconds * 1000 <= Z.max 1000 ttl < (seconds + 1) * 1000)
    /\ (ttl = 1 -> seconds = 1).
Proof.
  intros Hr Hk Ht Hpos. exists (expiry_seconds ttl).
  split; [|split; [|split]].
  - by rewrite (set_ready partition w key value ttl cacheKey text Hr Hk Ht).
  - apply expiry_seconds_positive.
  - intros Hlt. rewrite (expiry_seconds_exact ttl Hlt).
    split; [reflexivity|].
    destruct (Z.lt_ge_cases ttl 1000) as [Hsmall|Hge].
    + rewrite (Z.div_small ttl 1000) by lia. lia.
    + pose proof (Z.div_mod ttl 1000 ltac:(lia)) as Hdm.
      pose proof (Z.mod_pos_bound ttl 1000 ltac:(lia)) as Hmod.
      assert (1 <= ttl / 1000) by (apply Z.div_le_lower_bound; lia).
      lia.
  - intros ->. reflexivity.
Qed.

Lemma set_expiry_seconds_witness :
  isReady ready_world = true
  /\ generateKey JUndefined test_key = Ok (str "test:x")
  /\ SerializeJSONObject (envelope_of (JStr (str "x")) (clock ready_world) 2500)
     = Ok (json "{'item':'x','stored':1700000000000,'ttl':2500}")
  /\ 0 < 2500
  /\ exists seconds,
       calls (snd (set JUndefined test_key (JStr (str "x")) 2500 ready_world))
       = [CallSet (str "test:x")
            (json "{'item':'x','stored':1700000000000,'ttl':2500}") "ex" seconds]
       /\ seconds = 2.
Proof.
  assert (Hr : isReady ready_world = true) by reflexivity.
  assert (Hk : generateKey JUndefined test_key = Ok (str "test:x"))
    by reflexivity.
  assert (Ht : SerializeJSONObject
                 (envelope_of (JStr (str "x")) (clock ready_world) 2500)
               = Ok (json "{'item':'x','stored':1700000000000,'ttl':2500}"))
    by reflexivity.
  assert (Hpos : 0 < 2500) by lia.
  split; [exact Hr|]. split; [exact Hk|]. split; [exact Ht|].
  split; [exact Hpos|].
  destruct (set_expiry_seconds JUndefined test_key (JStr (str "x")) 2500
              ready_world (str "test:x") _ Hr Hk Ht Hpos)
    as (seconds & Hcalls & _ & Hexact & _).
  exists seconds. split; [exact Hcalls|].
  destruct Hexact as [-> _]; [lia|reflexivity].
Defined.

(** ** A non-positive ttl *)

(** C1, as the code has it: [set] with ttl 0 on a ready adapter is not a
    no-op, it writes the envelope with an expiry of one second. *)
Lemma set_zero_ttl_writes :
  isReady ready_world = true
  /\ fst (set JUndefined test_key (JStr (str "y")) 0 ready_world) = Ok tt
  /\ calls (snd (set JUndefined test_key (JStr (str "y")) 0 ready_world))
     = [CallSet (str "test:x")
          (json "{'item':'y','stored':1700000000000,'ttl':0}") "ex" 1].
Proof. vm_compute. repeat split. Qed.

(** C1, amended: for a key that yields a storage key and every ttl <= 0,
    [set] on a ready adapter does what it does for a positive ttl.  A value
    that can be serialised, as every value of the JSON data model and the
    undefined value can, is written: [set] makes exactly one call on the
    client, a [set] of the envelope with an expiry of 1 second, and resolves
    or rejects as that call does.  A value that cannot be serialised, as one
    that holds itself, makes [set] reject with the TypeError of
    [JSON.stringify] before any call. *)
Theorem set_nonpositive_ttl_writes {C : Type} `{Client C}
    (partition key value : jsval) (ttl : Z) (w : world C) (cacheKey : jsstring) :
  isReady w = true ->
  generateKey partition key = Ok cacheKey ->
  ttl <= 0 ->
  (forall text,
     SerializeJSONObject (envelope_of value (clock w) ttl) = Ok text ->
     set partition key value ttl w
     = (fst (client_set cacheKey text "ex" 1 (client w)),
        World (snd (client_set cacheKey text "ex" 1 (client w))) (clock w)
          (calls w ++ [CallSet cacheKey text "ex" 1])))
  /\ (forall e,
        SerializeJSONObject (envelope_of value (clock w) ttl) = Err e ->
        e = TypeError /\ set partition key value ttl w = (Err e, w))
  /\ (json_value value \/ value = JUndefined ->
      exists text,
        SerializeJSONObject (envelope_of value (clock w) ttl) = Ok text)
  /\ (forall fields name, value = JCycle fields name ->
      set partition key value ttl w = (Err TypeError, w)).
Proof.
  intros Hr Hk Hle. split; [|split; [|split]].
  - intros text Ht.
    rewrite (set_ready partition w key value ttl cacheKey text Hr Hk Ht).
    assert (Hs : expiry_seconds ttl = 1).
    { rewrite expiry_seconds_exact by lia.
      assert (ttl / 1000 <= 0) by (apply Z.div_le_upper_bound; lia). lia. }
    by rewrite Hs.
  - intros e Ht. split; [by eapply SerializeJSONObject_error|].
    by apply (set_unserialisable partition w key value ttl cacheKey).
  - intros Hv. eexists. by apply envelope_text.
  - intros fields name ->.
    apply (set_unserialisable partition w key _ ttl cacheKey); [done..|].
    apply envelope_cycle.
Qed.

Lemma set_nonpositive_ttl_writes_witness :
  isReady ready_world = true
  /\ generateKey JUndefined test_key = Ok (str "test:x")
  /\ -5 <= 0
  /\ calls (snd (set JUndefined test_key (JStr (str "y")) (-5) ready_world))
     = [CallSet (str "test:x")
          (json "{'item':'y','stored':1700000000000,'ttl':-5}") "ex" 1]
  /\ set JUndefined test_key (JCycle [(str "a", JNum 1)] (str "b")) (-5)
       ready_world
     = (Err TypeError, ready_world).
Proof.
  assert (Hr : isReady ready_world = true) by reflexivity.
  assert (Hk : generateKey JUndefined test_key = Ok (str "test:x"))
    by reflexivity.
  assert (Hle : -5 <= 0) by lia.
  split; [exact Hr|]. split; [exact Hk|]. split; [exact Hle|]. split.
  - destruct (set_nonpositive_ttl_writes JUndefined test_key (JStr (str "y"))
                (-5) ready_world (str "test:x") Hr Hk Hle) as (Hwrite & _).
    rewrite (Hwrite (json "{'item':'y','stored':1700000000000,'ttl':-5}"));
      reflexivity.
  - destruct (set_nonpositive_ttl_writes JUndefined test_key
                (JCycle [(str "a", JNum 1)] (str "b"))
                (-5) ready_world (str "test:x") Hr Hk Hle)
      as (_ & _ & _ & Hcycle).
    by apply (Hcycle [(str "a", JNum 1)] (str "b")).
Defined.

(** ** Writing a value and reading it back *)

(** On the reference client, the [get] that follows a [set] is given the
    text that [set] wrote and decodes it. *)
Lemma set_then_get (partition key value : jsval) (ttl : Z)
    (w : world redis) (k text : jsstring) :
  isReady w = true ->
  generateKey partition key = Ok k ->
  SerializeJSONObject (envelope_of value (clock w) ttl) = Ok text ->
  fst (set partition key value ttl w) = Ok tt
  /\ fst (get partition key (snd (set partition key value ttl w)))
     = decode (Some text).
Proof.
  intros Hr Hk Ht.
  rewrite (set_ready partition w key value ttl k text Hr Hk Ht).
  split; [reflexivity|].
  cbn [snd]. rewrite (get_ready partition _ key k) by done.
  cbn [fst client].
  assert (Hget : fst (client_get k
                        (snd (client_set k text "ex" (expiry_seconds ttl)
                                (client w))))
                 = Ok (Some text)).
  { cbn. by rewrite lookup_insert_eq. }
  by rewrite Hget.
Qed.

(** What [decode] makes of the envelope of a JSON value. *)
Lemma decode_envelope_of value now ttl :
  json_value value ->
  decode (Some (JSON_stringify_object (envelope_of value now ttl)))
  = if item_present value && negb (now =? 0)
    then Ok (Some (JObj (envelope_of value now ttl)))
    else Err (Error "Incorrect envelope structure").
Proof.
  intros Hv.
  pose proof (JSON_parse_envelope value now ttl Hv) as Hparse.
  destruct (JSON_stringify_object (envelope_of value now ttl)) as [|c text]
    eqn:Htext; [discriminate Hparse|].
  cbn [decode]. rewrite Hparse. reflexivity.
Qed.

(** C2, as the code has it.  For every JSON value [set] writes the envelope,
    and the [get] that follows returns it, with the value as its item, only
    when the value passes the presence check of line 55 (it is truthy, or is
    the number 0) and the clock did not read 0.  A value that is present but
    falsy and not 0 (false, the empty string) is written by [set] and then
    refused by [get] with "Incorrect envelope structure": presence is judged
    by truthiness, not structurally. *)
Theorem set_get_falsy_item (partition key value : jsval) (ttl : Z)
    (w : world redis) (k : jsstring) :
  isReady w = true ->
  generateKey partition key = Ok k ->
  json_value value ->
  fst (set partition key value ttl w) = Ok tt
  /\ (value = JBool false \/ value = JStr [] ->
      fst (get partition key (snd (set partition key value ttl w)))
      = Err (Error "Incorrect envelope structure"))
  /\ (item_present value = true -> clock w <> 0 ->
      fst (get partition key (snd (set partition key value ttl w)))
      = Ok (Some (JObj (envelope_of value (clock w) ttl)))
      /\ field (JObj (envelope_of value (clock w) ttl)) "item" = value).
Proof.
  intros Hr Hk Hv.
  destruct (set_then_get partition key value ttl w k _ Hr Hk
              (envelope_text value (clock w) ttl (or_introl Hv)))
    as [Hset Hget].
  split; [exact Hset|].
  rewrite Hget, (decode_envelope_of value (clock w) ttl Hv).
  split.
  - by intros [-> | ->].
  - intros -> Hclock. split; [|reflexivity].
    by replace (clock w =? 0) with false by (symmetry; by apply Z.eqb_neq).
Qed.

Lemma set_get_falsy_item_witness :
  isReady ready_world = true
  /\ generateKey JUndefined test_key = Ok (str "test:x")
  /\ json_value (JBool false)
  /\ fst (set JUndefined test_key (JBool false) 1000 ready_world) = Ok tt
  /\ fst (get JUndefined test_key
            (snd (set JUndefined test_key (JBool false) 1000 ready_world)))
     = Err (Error "Incorrect envelope structure").
Proof.
  assert (Hr : isReady ready_world = true) by reflexivity.
  assert (Hk : generateKey JUndefined test_key = Ok (str "test:x"))
    by reflexivity.
  split; [exact Hr|]. split; [exact Hk|]. split; [constructor|].
  destruct (set_get_falsy_item JUndefined test_key (JBool false) 1000
              ready_world (str "test:x") Hr Hk (json_bool false))
    as (Hset & Hfalsy & _).
  split; [exact Hset|]. apply Hfalsy. by left.
Defined.

(** The values of the test suite: the string ['123'] and the number [0] come
    back, [false] and the empty string do not. *)
Example set_get_examples :
  fst (get JUndefined test_key
         (snd (set JUndefined test_key (JStr (str "123")) 500 ready_world)))
  = Ok (Some (JObj (envelope_of (JStr (str "123")) 1700000000000 500)))
  /\ fst (get JUndefined test_key
            (snd (set JUndefined test_key (JNum 0) 200 ready_world)))
     = Ok (Some (JObj (envelope_of (JNum 0) 1700000000000 200)))
  /\ fst (get JUndefined test_key
            (snd (set JUndefined test_key (JBool false) 1000 ready_world)))
     = Err (Error "Incorrect envelope structure")
  /\ fst (get JUndefined test_key
            (snd (set JUndefined test_key (JStr []) 1000 ready_world)))
     = Err (Error "Incorrect envelope structure").
Proof. vm_compute. repeat split. Qed.

(** * Further properties of the adapter *)

(** ** Segment names *)

(** X1: [validateSegmentName] answers "Empty string" exactly for the empty
    name, "Includes null character" exactly for a non-empty name that holds
    the character 0, and null for every other name. *)
Theorem validateSegmentName_spec (name : jsstring) :
  (validateSegmentName name = Some (Error "Empty string") <-> name = [])
  /\ (validateSegmentName name = Some (Error "Includes null character")
      <-> name <> [] /\ In 0 name)
  /\ (validateSegmentName name = None <-> name <> [] /\ ~ In 0 name).
Proof.
  assert (Hnull : existsb (Z.eqb 0) name = true <-> In 0 name).
  { rewrite existsb_exists. split.
    - intros (x & Hx & Hzero). apply Z.eqb_eq in Hzero. by subst x.
    - intros Hin. exists 0. by split. }
  unfold validateSegmentName.
  destruct name as [|c name].
  { split; [by split|]. split; split.
    - discriminate.
    - by intros [Hx _].
    - discriminate.
    - by intros [Hx _]. }
  change (negb (truthy (JStr (c :: name)))) with false. cbv iota.
  destruct (existsb (Z.eqb 0) (c :: name)).
  - split; [split; intros Hx; discriminate Hx|]. split; split.
    + intros _. split; [discriminate|]. by apply Hnull.
    + reflexivity.
    + discriminate.
    + intros [_ Hnot]. destruct Hnot. by apply Hnull.
  - split; [split; intros Hx; discriminate Hx|]. split; split.
    + discriminate.
    + intros [_ Hin]. apply Hnull in Hin. discriminate Hin.
    + intros _. split; [discriminate|]. intros Hin. apply Hnull in Hin.
      discriminate Hin.
    + reflexivity.
Qed.

(** ** The trace of an operation *)

(** X2: the calls an operation makes on the client.  [get] and [drop] make
    one call, on the storage key of [generateKey], when the adapter is ready
    and the key has a storage key, and none otherwise; [set] makes one call,
    with the mode [ex] and an expiry of at least one second, when moreover
    the envelope can be serialised, and none otherwise; [start] makes one
    [connect()] call on a waiting handle and none otherwise; [stop] makes
    none.  No operation touches the earlier trace or the clock. *)
Theorem operation_trace {C : Type} `{Client C}
    (partition key value : jsval) (ttl : Z) (w : world C) :
  (calls (snd (get partition key w))
   = calls w ++ (if isReady w
                 then match generateKey partition key with
                      | Ok k => [CallGet k]
                      | Err _ => []
                      end
                 else [])
   /\ clock (snd (get partition key w)) = clock w)
  /\ (exists seconds,
        1 <= seconds
        /\ calls (snd (set partition key value ttl w))
           = calls w
             ++ (if isReady w
                 then match generateKey partition key with
                      | Ok k =>
                          match SerializeJSONObject
                                  (envelope_of value (clock w) ttl) with
                          | Ok text => [CallSet k text "ex" seconds]
                          | Err _ => []
                          end
                      | Err _ => []
                      end
                 else [])
        /\ clock (snd (set partition key value ttl w)) = clock w)
  /\ (calls (snd (drop partition key w))
      = calls w ++ (if isReady w
                    then match generateKey partition key with
                         | Ok k => [CallDel k]
                         | Err _ => []
                         end
                    else [])
      /\ clock (snd (drop partition key w)) = clock w)
  /\ (calls (snd (start w))
      = calls w ++ (if String.eqb (status (client w)) "wait"
                    then [CallConnect] else [])
      /\ clock (snd (start w)) = clock w)
  /\ snd (stop w) = w.
Proof.
  assert (Hstart : calls (snd (start w))
                   = calls w ++ (if String.eqb (status (client w)) "wait"
                                 then [CallConnect] else [])
                   /\ clock (snd (start w)) = clock w).
  { destruct (String.eqb_spec (status (client w)) "wait") as [Hs|Hs].
    - by rewrite (start_waiting w Hs).
    - rewrite (start_not_waiting w Hs). cbn [snd]. by rewrite app_nil_r. }
  assert (Hset : exists seconds,
    1 <= seconds
    /\ calls (snd (set partition key value ttl w))
       = calls w
         ++ (if isReady w
             then match generateKey partition key with
                  | Ok k =>
                      match SerializeJSONObject
                              (envelope_of value (clock w) ttl) with
                      | Ok text => [CallSet k text "ex" seconds]
                      | Err _ => []
                      end
                  | Err _ => []
                  end
             else [])
    /\ clock (snd (set partition key value ttl w)) = clock w).
  { exists (expiry_seconds ttl). split; [apply expiry_seconds_positive|].
    destruct (isReady w) eqn:Hr;
      [|rewrite (set_not_ready partition w key value ttl Hr);
        cbn [snd]; by rewrite app_nil_r].
    destruct (generateKey partition key) as [k|e] eqn:Hk;
      [|rewrite (set_bad_key partition w key value ttl e Hr Hk);
        cbn [snd]; by rewrite app_nil_r].
    destruct (SerializeJSONObject (envelope_of value (clock w) ttl))
      as [text|e] eqn:Ht.
    - by rewrite (set_ready partition w key value ttl k text Hr Hk Ht).
    - rewrite (set_unserialisable partition w key value ttl k e Hr Hk Ht).
      cbn [snd]. by rewrite app_nil_r. }
  split; [|split; [exact Hset|split; [|split; [exact Hstart|reflexivity]]]].
  - destruct (isReady w) eqn:Hr;
      [|rewrite (get_not_ready partition w key Hr);
        cbn [snd]; by rewrite app_nil_r].
    destruct (generateKey partition key) as [k|e] eqn:Hk.
    + by rewrite (get_ready partition w key k Hr Hk).
    + rewrite (get_bad_key partition w key e Hr Hk).
      cbn [snd]. by rewrite app_nil_r.
  - destruct (isReady w) eqn:Hr;
      [|rewrite (drop_not_ready partition w key Hr);
        cbn [snd]; by rewrite app_nil_r].
    destruct (generateKey partition key) as [k|e] eqn:Hk.
    + by rewrite (drop_ready partition w key k Hr Hk).
    + rewrite (drop_bad_key partition w key e Hr Hk).
      cbn [snd]. by rewrite app_nil_r.
Qed.

(** X3: on a ready adapter, what the client answers is what the caller gets.
    [drop] resolves with the value [client.del] resolved with, [set] resolves
    when the [client.set] call it made does, and a rejection of the client's
    [get], [set], [del] or [connect] is the rejection of the operation,
    unchanged.  So is the error of [JSON.stringify] on a value it refuses. *)
Theorem client_outcome_passed_on {C : Type} `{Client C}
    (partition key value : jsval) (ttl : Z) (w : world C) (k : jsstring) :
  isReady w = true ->
  generateKey partition key = Ok k ->
  fst (drop partition key w) = fst (client_del k (client w))
  /\ (forall text,
        SerializeJSONObject (envelope_of value (clock w) ttl) = Ok text ->
        exists seconds,
          calls (snd (set partition key value ttl w))
          = calls w ++ [CallSet k text "ex" seconds]
          /\ fst (set partition key value ttl w)
             = fst (client_set k text "ex" seconds (client w)))
  /\ (forall e,
        SerializeJSONObject (envelope_of value (clock w) ttl) = Err e ->
        fst (set partition key value ttl w) = Err e)
  /\ (forall e, fst (client_get k (client w)) = Err e ->
      fst (get partition key w) = Err e)
  /\ (forall w' : world C, status (client w') = "wait"%string ->
      fst (start w') = fst (client_connect (client w'))).
Proof.
  intros Hr Hk.
  rewrite (drop_ready partition w key k Hr Hk).
  rewrite (get_ready partition w key k Hr Hk).
  split; [reflexivity|]. split; [|split; [|split]].
  - intros text Ht. exists (expiry_seconds ttl).
    by rewrite (set_ready partition w key value ttl k text Hr Hk Ht).
  - intros e Ht.
    by rewrite (set_unserialisable partition w key value ttl k e Hr Hk Ht).
  - intros e He. simpl. by rewrite He.
  - intros w' Hs. by rewrite (start_waiting w' Hs).
Qed.

Lemma client_outcome_passed_on_witness :
  isReady ready_world = true
  /\ generateKey JUndefined test_key = Ok (str "test:x")
  /\ fst (drop JUndefined test_key ready_world) = Ok (Some 0)
  /\ fst (set JUndefined test_key (JCycle [] (str "self")) 1 ready_world)
     = Err TypeError
  /\ fst (start unreachable_world) = Err (ClientError 111).
Proof.
  assert (Hr : isReady ready_world = true) by reflexivity.
  assert (Hk : generateKey JUndefined test_key = Ok (str "test:x"))
    by reflexivity.
  split; [exact Hr|]. split; [exact Hk|].
  destruct (client_outcome_passed_on JUndefined test_key
              (JCycle [] (str "self")) 1 ready_world
              (str "test:x") Hr Hk) as (Hdrop & _ & Hcycle & _ & Hstart).
  split; [rewrite Hdrop; reflexivity|].
  split; [apply Hcycle; reflexivity|].
  rewrite (Hstart unreachable_world); reflexivity.
Defined.

(** ** What [get] resolves with *)

(** [JSON.parse] builds its values anew: none of them holds itself. *)
Lemma parse_value_no_cycle fuel s v r fields name :
  parse_value fuel s = Some (v, r) -> v <> JCycle fields name.
Proof.
  destruct fuel as [|fuel]; [discriminate|]. cbn [parse_value].
  intros Hp ->.
  repeat case_match; simplify_option_eq; repeat case_match; simplify_eq.
Qed.

Lemma JSON_parse_no_cycle text v fields name :
  JSON_parse text = Some v -> v <> JCycle fields name.
Proof.
  unfold JSON_parse.
  destruct (parse_value (S (length text)) text) as [[v' r]|] eqn:Hp;
    [|discriminate].
  cbn [mbind option_bind]. destruct (skip_ws r); [|discriminate].
  intros [= <-]. by eapply parse_value_no_cycle.
Qed.

(** X4: whatever the client, the key and the state of the adapter, when [get]
    resolves with an envelope the adapter was ready and the envelope is an
    object whose [stored] is truthy and whose [item] is there and is neither
    null, nor false, nor the empty string. *)
Theorem get_resolves_with_object {C : Type} `{Client C}
    (partition key : jsval) (w : world C) (envelope : jsval) :
  fst (get partition key w) = Ok (Some envelope) ->
  isReady w = true
  /\ (exists fields, envelope = JObj fields)
  /\ truthy (field envelope "stored") = true
  /\ field envelope "item" <> JUndefined
  /\ field envelope "item" <> JNull
  /\ field envelope "item" <> JBool false
  /\ field envelope "item" <> JStr [].
Proof.
  intros Hget.
  destruct (isReady w) eqn:Hr;
    [|rewrite (get_not_ready partition w key Hr) in Hget; discriminate Hget].
  split; [reflexivity|].
  destruct (generateKey partition key) as [k|e] eqn:Hk;
    [|rewrite (get_bad_key partition w key e Hr Hk) in Hget;
      discriminate Hget].
  rewrite (get_ready partition w key k Hr Hk) in Hget. simpl in Hget.
  destruct (fst (client_get k (client w))) as [raw|e]; [|discriminate Hget].
  destruct (decode_inv raw) as [[Hx _]|[[Hx _]|[[Hx _]|(v & Hx & Hfacts)]]];
    try (rewrite Hx in Hget; discriminate Hget).
  rewrite Hx in Hget. injection Hget as <-.
  destruct Hfacts as (text & _ & _ & Hparse & Hv & Hstored & Hitem).
  assert (Hobj : exists fields, v = JObj fields).
  { destruct v as [| |b|n|s|items|fields|fields name];
      try discriminate Hitem.
    - by exists fields.
    - by destruct (JSON_parse_no_cycle _ _ fields name Hparse). }
  split; [exact Hobj|]. split; [exact Hstored|].
  assert (Hnot : item_present (field v "item") <> false) by congruence.
  rewrite item_present_false in Hnot.
  repeat split; intros Hx'; apply Hnot; auto.
Qed.

Lemma get_resolves_with_object_witness :
  fst (get JUndefined test_key (stored_world expired_text))
  = Ok (Some (JObj [(str "item", JStr (str "x")); (str "stored", JNum 1);
                    (str "ttl", JNum 1)]))
  /\ isReady (stored_world expired_text) = true
  /\ truthy (field (JObj [(str "item", JStr (str "x")); (str "stored", JNum 1);
                          (str "ttl", JNum 1)]) "stored") = true.
Proof.
  assert (Hget : fst (get JUndefined test_key (stored_world expired_text))
                 = Ok (Some (JObj [(str "item", JStr (str "x"));
                                   (str "stored", JNum 1);
                                   (str "ttl", JNum 1)])))
    by reflexivity.
  split; [exact Hget|].
  destruct (get_resolves_with_object JUndefined test_key
              (stored_world expired_text) _ Hget) as (Hr & _ & Hs & _).
  split; [exact Hr|exact Hs].
Defined.

(** ** What [set] writes *)

(** X5: the text [set] hands to the client is the JSON of one object with, in
    this order, the value as [item], the reading of the clock as [stored] and
    the ttl in milliseconds as [ttl]: for every value of the JSON data model
    [set] makes its call, with an expiry of at least one second, and the text
    parses back to exactly this object.  For an undefined value the text
    holds no [item] at all. *)
Theorem set_writes_envelope {C : Type} `{Client C}
    (partition key value : jsval) (ttl : Z) (w : world C) (k : jsstring) :
  isReady w = true ->
  generateKey partition key = Ok k ->
  json_value value \/ value = JUndefined ->
  exists text seconds,
    calls (snd (set partition key value ttl w))
    = calls w ++ [CallSet k text "ex" seconds]
    /\ 1 <= seconds
    /\ (json_value value ->
        JSON_parse text
        = Some (JObj [(str "item", value); (str "stored", JNum (clock w));
                      (str "ttl", JNum ttl)]))
    /\ (value = JUndefined ->
        JSON_parse text
        = Some (JObj [(str "stored", JNum (clock w)); (str "ttl", JNum ttl)])).
Proof.
  intros Hr Hk Hv.
  exists (JSON_stringify_object (envelope_of value (clock w) ttl)),
    (expiry_seconds ttl).
  rewrite (set_ready partition w key value ttl k _ Hr Hk
             (envelope_text value (clock w) ttl Hv)).
  split; [reflexivity|]. split; [apply expiry_seconds_positive|]. split.
  - intros Hj. by apply JSON_parse_envelope.
  - intros ->. apply JSON_parse_envelope_undefined.
Qed.

Lemma set_writes_envelope_witness :
  isReady ready_world = true
  /\ generateKey JUndefined test_key = Ok (str "test:x")
  /\ (json_value (JArr [JNum 1; JStr (str "a")])
      \/ JArr [JNum 1; JStr (str "a")] = JUndefined)
  /\ exists text seconds,
       calls (snd (set JUndefined test_key (JArr [JNum 1; JStr (str "a")]) 2500
                     ready_world))
       = [CallSet (str "test:x") text "ex" seconds]
       /\ JSON_parse text
          = Some (JObj [(str "item", JArr [JNum 1; JStr (str "a")]);
                        (str "stored", JNum 1700000000000);
                        (str "ttl", JNum 2500)]).
Proof.
  assert (Hr : isReady ready_world = true) by reflexivity.
  assert (Hk : generateKey JUndefined test_key = Ok (str "test:x"))
    by reflexivity.
  assert (Hj : json_value (JArr [JNum 1; JStr (str "a")])).
  { constructor. repeat constructor; unfold code_unit; lia. }
  split; [exact Hr|]. split; [exact Hk|]. split; [by left|].
  destruct (set_writes_envelope JUndefined test_key
              (JArr [JNum 1; JStr (str "a")]) 2500 ready_world (str "test:x")
              Hr Hk (or_introl Hj)) as (text & seconds & Hcalls & _ & Hparse & _).
  exists text, seconds. split; [exact Hcalls|].
  by apply Hparse.
Defined.

(** X6: reading back what was written, on any client.  If after [set] the
    adapter is still ready and the client answers [get] with the text it was
    given, then [get] resolves with the envelope when the value is truthy or
    0 and the clock did not read 0 at the write, and rejects with "Incorrect
    envelope structure" otherwise: so for an undefined or null value, and for
    every value written at clock 0. *)
Theorem get_after_set {C : Type} `{Client C}
    (partition key value : jsval) (ttl : Z) (w : world C) (k : jsstring) :
  isReady w = true ->
  generateKey partition key = Ok k ->
  json_value value \/ value = JUndefined ->
  isReady (snd (set partition key value ttl w)) = true ->
  fst (client_get k (client (snd (set partition key value ttl w))))
  = Ok (Some (JSON_stringify_object (envelope_of value (clock w) ttl))) ->
  fst (get partition key (snd (set partition key value ttl w)))
  = if item_present value && negb (clock w =? 0)
    then Ok (Some (JObj (envelope_of value (clock w) ttl)))
    else Err (Error "Incorrect envelope structure").
Proof.
  intros Hr Hk Hv Hr' Hanswer.
  rewrite (get_ready partition _ key k Hr' Hk).
  cbn [fst]. rewrite Hanswer.
  destruct Hv as [Hv| ->]; [by apply decode_envelope_of|].
  pose proof (JSON_parse_envelope_undefined (clock w) ttl) as Hparse.
  destruct (JSON_stringify_object (envelope_of JUndefined (clock w) ttl))
    as [|c text] eqn:Htext; [discriminate Hparse|].
  cbn [decode]. rewrite Hparse. reflexivity.
Qed.

Lemma get_after_set_witness :
  isReady ready_world = true
  /\ generateKey JUndefined test_key = Ok (str "test:x")
  /\ (json_value JNull \/ JNull = JUndefined)
  /\ isReady (snd (set JUndefined test_key JNull 1000 ready_world)) = true
  /\ fst (get JUndefined test_key
            (snd (set JUndefined test_key JNull 1000 ready_world)))
     = Err (Error "Incorrect envelope structure").
Proof.
  assert (Hr : isReady ready_world = true) by reflexivity.
  assert (Hk : generateKey JUndefined test_key = Ok (str "test:x"))
    by reflexivity.
  assert (Hr' : isReady (snd (set JUndefined test_key JNull 1000 ready_world))
                = true) by reflexivity.
  split; [exact Hr|]. split; [exact Hk|].
  split; [left; constructor|]. split; [exact Hr'|].
  rewrite (get_after_set JUndefined test_key JNull 1000 ready_world
             (str "test:x") Hr Hk (or_introl json_null) Hr');
    reflexivity.
Defined.

(** ** The life cycle *)

(** X7: [start()] does not wait for readiness.  On a handle that is neither
    waiting nor ready (connecting, reconnecting, closed) it resolves at once
    and changes nothing, and the adapter it leaves is not ready: [get], [set]
    and [drop] still reject with NotConnectedError. *)
Theorem start_resolves_unready {C : Type} `{Client C}
    (partition key value : jsval) (ttl : Z) (w : world C) :
  status (client w) <> "wait"%string ->
  status (client w) <> "ready"%string ->
  start w = (Ok tt, w)
  /\ isReady (snd (start w)) = false
  /\ fst (get partition key (snd (start w))) = Err NotConnectedError
  /\ fst (set partition key value ttl (snd (start w))) = Err NotConnectedError
  /\ fst (drop partition key (snd (start w))) = Err NotConnectedError.
Proof.
  intros Hwait Hready.
  rewrite (start_not_waiting w Hwait). cbn [snd].
  assert (Hr : isReady w = false).
  { unfold isReady. by destruct (String.eqb_spec (status (client w)) "ready"). }
  split; [reflexivity|]. split; [exact Hr|].
  rewrite (get_not_ready partition w key Hr).
  rewrite (set_not_ready partition w key value ttl Hr).
  by rewrite (drop_not_ready partition w key Hr).
Qed.

Lemma start_resolves_unready_witness :
  status (client (World (Redis "connecting" true ∅) 5 [])) <> "wait"%string
  /\ status (client (World (Redis "connecting" true ∅) 5 [])) <> "ready"%string
  /\ start (World (Redis "connecting" true ∅) 5 [])
     = (Ok tt, World (Redis "connecting" true ∅) 5 [])
  /\ fst (get JUndefined test_key
            (snd (start (World (Redis "connecting" true ∅) 5 []))))
     = Err NotConnectedError.
Proof.
  assert (H1 : status (client (World (Redis "connecting" true ∅) 5 []))
               <> "wait"%string) by discriminate.
  assert (H2 : status (client (World (Redis "connecting" true ∅) 5 []))
               <> "ready"%string) by discriminate.
  split; [exact H1|]. split; [exact H2|].
  destruct (start_resolves_unready JUndefined test_key JNull 1
              (World (Redis "connecting" true ∅) 5 []) H1 H2)
    as (Hstart & _ & Hget & _).
  split; [exact Hstart|exact Hget].
Defined.

Lemma connects_app t1 t2 : connects (t1 ++ t2) = (connects t1 + connects t2)%nat.
Proof. unfold connects. by rewrite List.filter_app, length_app. Qed.

Lemma isReady_status {C : Type} `{Client C} (w : world C) :
  isReady w = true -> status (client w) = "ready"%string.
Proof. unfold isReady. by destruct (String.eqb_spec (status (client w)) "ready"). Qed.

Section Connects.
Context {C : Type} `{Client C}.
Variable partition : jsval.

(** The client's contract: [connect()] takes the handle out of the waiting
    status, and no call on a ready handle puts it back there. *)
Hypothesis connect_leaves_wait :
  forall c : C, status (snd (client_connect c)) <> "wait"%string.
Hypothesis get_keeps_out_of_wait :
  forall k (c : C), status c = "ready"%string ->
                    status (snd (client_get k c)) <> "wait"%string.
Hypothesis set_keeps_out_of_wait :
  forall k v mode seconds (c : C),
    status c = "ready"%string ->
    status (snd (client_set k v mode seconds c)) <> "wait"%string.
Hypothesis del_keeps_out_of_wait :
  forall k (c : C), status c = "ready"%string ->
                    status (snd (client_del k c)) <> "wait"%string.

(** Off the waiting status no operation connects, and none returns there. *)
Lemma run_operation_not_waiting op (w : world C) :
  status (client w) <> "wait"%string ->
  status (client (run_operation partition op w)) <> "wait"%string
  /\ connects (calls (run_operation partition op w)) = connects (calls w).
Proof.
  intros Hs. destruct op as [| |key|key value ttl|key]; cbn [run_operation].
  - by rewrite (start_not_waiting w Hs).
  - done.
  - destruct (isReady w) eqn:Hr;
      [|by rewrite (get_not_ready partition w key Hr)].
    destruct (generateKey partition key) as [k|e] eqn:Hk;
      [|by rewrite (get_bad_key partition w key e Hr Hk)].
    rewrite (get_ready partition w key k Hr Hk). cbn [snd client calls].
    split; [by apply get_keeps_out_of_wait, isReady_status|].
    rewrite connects_app. cbn. lia.
  - destruct (isReady w) eqn:Hr;
      [|by rewrite (set_not_ready partition w key value ttl Hr)].
    destruct (generateKey partition key) as [k|e] eqn:Hk;
      [|by rewrite (set_bad_key partition w key value ttl e Hr Hk)].
    destruct (SerializeJSONObject (envelope_of value (clock w) ttl))
      as [text|e] eqn:Ht;
      [|by rewrite (set_unserialisable partition w key value ttl k e Hr Hk Ht)].
    rewrite (set_ready partition w key value ttl k text Hr Hk Ht).
    cbn [snd client calls].
    split; [by apply set_keeps_out_of_wait, isReady_status|].
    rewrite connects_app. cbn. lia.
  - destruct (isReady w) eqn:Hr;
      [|by rewrite (drop_not_ready partition w key Hr)].
    destruct (generateKey partition key) as [k|e] eqn:Hk;
      [|by rewrite (drop_bad_key partition w key e Hr Hk)].
    rewrite (drop_ready partition w key k Hr Hk). cbn [snd client calls].
    split; [by apply del_keeps_out_of_wait, isReady_status|].
    rewrite connects_app. cbn. lia.
Qed.

Lemma run_operations_not_waiting ops (w : world C) :
  status (client w) <> "wait"%string ->
  connects (calls (run_operations partition ops w)) = connects (calls w).
Proof.
  revert w. induction ops as [|op ops IH]; intros w Hs; [reflexivity|].
  cbn [run_operations List.fold_left].
  destruct (run_operation_not_waiting op w Hs) as [Hs' Hc].
  fold (run_operations partition ops (run_operation partition op w)).
  rewrite (IH _ Hs'). exact Hc.
Qed.

(** On a waiting handle an operation either leaves the world as it is, or
    is the [start()] that connects. *)
Lemma run_operation_waiting op (w : world C) :
  status (client w) = "wait"%string ->
  run_operation partition op w = w
  \/ (status (client (run_operation partition op w)) <> "wait"%string
      /\ connects (calls (run_operation partition op w))
         = S (connects (calls w))).
Proof.
  intros Hs.
  assert (Hr : isReady w = false) by (unfold isReady; by rewrite Hs).
  destruct op as [| |key|key value ttl|key]; cbn [run_operation].
  - right. rewrite (start_waiting w Hs). cbn [snd client calls].
    split; [apply connect_leaves_wait|].
    rewrite connects_app. cbn. lia.
  - by left.
  - left. by rewrite (get_not_ready partition w key Hr).
  - left. by rewrite (set_not_ready partition w key value ttl Hr).
  - left. by rewrite (drop_not_ready partition w key Hr).
Qed.

Lemma run_operations_connects ops (w : world C) :
  (connects (calls (run_operations partition ops w))
   <= S (connects (calls w)))%nat
  /\ (connects (calls w)
      <= connects (calls (run_operations partition ops w)))%nat.
Proof.
  revert w. induction ops as [|op ops IH]; intros w; [simpl; lia|].
  cbn [run_operations List.fold_left].
  fold (run_operations partition ops (run_operation partition op w)).
  destruct (String.eqb_spec (status (client w)) "wait") as [Hs|Hs].
  - destruct (run_operation_waiting op w Hs) as [->|[Hs' Hc]]; [apply IH|].
    rewrite (run_operations_not_waiting ops _ Hs'). lia.
  - destruct (run_operation_not_waiting op w Hs) as [Hs' Hc].
    rewrite (run_operations_not_waiting ops _ Hs'). lia.
Qed.
End Connects.

(** X8: over any sequence of [start], [stop], [get], [set] and [drop] calls,
    each awaited before the next, the adapter calls [connect()] at most once,
    and not at all when the handle was not waiting at the beginning, provided
    the client never goes back to the waiting status. *)
Theorem connects_at_most_once {C : Type} `{Client C}
    (partition : jsval) (ops : list operation) (w : world C) :
  (forall c : C, status (snd (client_connect c)) <> "wait"%string) ->
  (forall k (c : C), status c = "ready"%string ->
                     status (snd (client_get k c)) <> "wait"%string) ->
  (forall k v mode seconds (c : C),
      status c = "ready"%string ->
      status (snd (client_set k v mode seconds c)) <> "wait"%string) ->
  (forall k (c : C), status c = "ready"%string ->
                     status (snd (client_del k c)) <> "wait"%string) ->
  (connects (calls (run_operations partition ops w))
   <= S (connects (calls w)))%nat
  /\ (status (client w) <> "wait"%string ->
      connects (calls (run_operations partition ops w)) = connects (calls w)).
Proof.
  intros Hc Hg Hs Hd. split.
  - by apply run_operations_connects.
  - by apply run_operations_not_waiting.
Qed.

Lemma redis_calls_keep_status :
  (forall k (c : redis), status c = "ready"%string ->
                         status (snd (client_get k c)) <> "wait"%string)
  /\ (forall k v mode seconds (c : redis),
        status c = "ready"%string ->
        status (snd (client_set k v mode seconds c)) <> "wait"%string)
  /\ (forall k (c : redis), status c = "ready"%string ->
                            status (snd (client_del k c)) <> "wait"%string).
Proof.
  repeat split; intros; simpl in *; congruence.
Qed.

Lemma connects_at_most_once_witness :
  (forall c : redis, status (snd (client_connect c)) <> "wait"%string)
  /\ (forall k (c : redis), status c = "ready"%string ->
                            status (snd (client_get k c)) <> "wait"%string)
  /\ (forall k v mode seconds (c : redis),
        status c = "ready"%string ->
        status (snd (client_set k v mode seconds c)) <> "wait"%string)
  /\ (forall k (c : redis), status c = "ready"%string ->
                            status (snd (client_del k c)) <> "wait"%string)
  /\ (connects
        (calls (run_operations JUndefined
                  [OpGet test_key; OpStart; OpSet test_key (JNum 1) 10; OpStop;
                   OpStart; OpGet test_key; OpDrop test_key; OpStart]
                  waiting_world)) <= 1)%nat.
Proof.
  destruct redis_calls_keep_status as (Hg & Hs & Hd).
  split; [exact redis_connect_leaves_wait|].
  split; [exact Hg|]. split; [exact Hs|]. split; [exact Hd|].
  apply (connects_at_most_once JUndefined
           [OpGet test_key; OpStart; OpSet test_key (JNum 1) 10; OpStop;
            OpStart; OpGet test_key; OpDrop test_key; OpStart]
           waiting_world redis_connect_leaves_wait Hg Hs Hd).
Defined.

(** ** Storage keys *)

Lemma Encode_alphabet s t :
  Forall code_unit s -> Encode s = Ok t ->
  Forall (fun c => uriUnescaped c = true \/ c = 37) t.
Proof.
  intros Hw. rewrite Encode_tokens.
  destruct (tokens s) as [ts|] eqn:E; [|discriminate].
  intros [= <-]. destruct (tokens_spec s ts Hw E) as [Hv _]. clear E Hw.
  induction Hv as [|tok ts Htok _ IH]; [constructor|].
  rewrite render_all_cons. apply Forall_app. split; [|exact IH].
  destruct tok as [c|cp]; simpl in *.
  - constructor; [by left|constructor].
  - pose proof (utf8_octets cp (proj1 Htok)) as Hoct.
    induction Hoct as [|b o Hb _ IHo]; [constructor|].
    change (percent_all (b :: o))
      with (37 :: hex_digit (b / 16) :: hex_digit (b mod 16) :: percent_all o).
    assert (Hhex : forall d, 0 <= d < 16 -> uriUnescaped (hex_digit d) = true).
    { intros d Hd. destruct (hex_digit_range d Hd);
        unfold uriUnescaped; bool_lia. }
    constructor; [by right|].
    constructor; [left; apply Hhex; Z.div_mod_to_equations; lia|].
    constructor; [left; apply Hhex; Z.div_mod_to_equations; lia|].
    exact IHo.
Qed.

Lemma count_colon_none (t : jsstring) :
  ~ In 58 t -> count_occ Z.eq_dec t 58 = 0%nat.
Proof. by apply count_occ_not_In. Qed.

Lemma count_colon_cons (t : jsstring) :
  count_occ Z.eq_dec (58 :: t) 58 = S (count_occ Z.eq_dec t 58).
Proof. simpl. by destruct (Z.eq_dec 58 58). Qed.

(** X9: the alphabet of a storage key.  For string components, the key holds
    only unescaped characters, percent signs and colons, all of them printable
    ASCII (so no null character, no space, no line break); and it holds
    exactly two colons under a partition and exactly one without, the
    separators: no colon comes from a component. *)
Theorem storage_key_alphabet (partition : jsval) (p segment id k : jsstring) :
  partition = JStr p \/ truthy partition = false ->
  Forall code_unit p -> Forall code_unit segment -> Forall code_unit id ->
  generateKey partition (cache_key segment id) = Ok k ->
  Forall key_character k
  /\ Forall (fun c => 33 <= c <= 126) k
  /\ count_occ Z.eq_dec k 58 = (if truthy partition then 2 else 1)%nat.
Proof.
  intros Hp Hwp Hws Hwi. rewrite generateKey_cache_key.
  destruct (truthy partition) eqn:Ht.
  - destruct Hp as [->|Hp]; [|discriminate Hp].
    rewrite !encodeURIComponent_string.
    destruct (Encode p) as [e|] eqn:Ep; [|discriminate].
    destruct (Encode segment) as [s|] eqn:Es; [|discriminate].
    destruct (Encode id) as [i|] eqn:Ei; [|discriminate].
    intros [= <-].
    change (join (str ":") ([e] ++ [s; i])) with (e ++ [58] ++ s ++ [58] ++ i).
    pose proof (Encode_alphabet p e Hwp Ep) as Ha1.
    pose proof (Encode_alphabet segment s Hws Es) as Ha2.
    pose proof (Encode_alphabet id i Hwi Ei) as Ha3.
    pose proof (Encode_no_colon p e Hwp Ep) as Hn1.
    pose proof (Encode_no_colon segment s Hws Es) as Hn2.
    pose proof (Encode_no_colon id i Hwi Ei) as Hn3.
    assert (Hkey : Forall key_character (e ++ [58] ++ s ++ [58] ++ i)).
    { repeat (apply Forall_app; split);
        try (eapply Forall_impl; [eassumption|]; intros c [Hc|Hc];
             [by left|right; by left]);
        repeat constructor; right; by right. }
    split; [exact Hkey|]. split.
    + eapply Forall_impl; [exact Hkey|].
      intros c [Hc|[->| ->]]; [by apply uriUnescaped_range|lia|lia].
    + change (e ++ [58] ++ s ++ [58] ++ i) with (e ++ 58 :: s ++ 58 :: i).
      rewrite count_occ_app, count_colon_cons, count_occ_app, count_colon_cons.
      rewrite !count_colon_none by done. reflexivity.
  - destruct (Encode segment) as [s|] eqn:Es; [|discriminate].
    destruct (Encode id) as [i|] eqn:Ei; [|discriminate].
    intros [= <-].
    change (join (str ":") ([] ++ [s; i])) with (s ++ [58] ++ i).
    pose proof (Encode_alphabet segment s Hws Es) as Ha2.
    pose proof (Encode_alphabet id i Hwi Ei) as Ha3.
    pose proof (Encode_no_colon segment s Hws Es) as Hn2.
    pose proof (Encode_no_colon id i Hwi Ei) as Hn3.
    assert (Hkey : Forall key_character (s ++ [58] ++ i)).
    { repeat (apply Forall_app; split);
        try (eapply Forall_impl; [eassumption|]; intros c [Hc|Hc];
             [by left|right; by left]);
        repeat constructor; right; by right. }
    split; [exact Hkey|]. split.
    + eapply Forall_impl; [exact Hkey|].
      intros c [Hc|[->| ->]]; [by apply uriUnescaped_range|lia|lia].
    + change (s ++ [58] ++ i) with (s ++ 58 :: i).
      rewrite count_occ_app, count_colon_cons.
      rewrite !count_colon_none by done. reflexivity.
Qed.

Lemma storage_key_alphabet_witness :
  (JStr (str "foo") = JStr (str "foo") \/ truthy (JStr (str "foo")) = false)
  /\ Forall code_unit (str "foo") /\ Forall code_unit [97; 0; 32; 58]
  /\ Forall code_unit (str "b")
  /\ generateKey (JStr (str "foo")) (cache_key [97; 0; 32; 58] (str "b"))
     = Ok (str "foo:a%00%20%3A:b")
  /\ count_occ Z.eq_dec (str "foo:a%00%20%3A:b") 58 = 2%nat.
Proof.
  assert (H1 : Forall code_unit (str "foo"))
    by (repeat constructor; unfold code_unit; lia).
  assert (H2 : Forall code_unit [97; 0; 32; 58])
    by (repeat constructor; unfold code_unit; lia).
  assert (H3 : Forall code_unit (str "b"))
    by (repeat constructor; unfold code_unit; lia).
  assert (Hk : generateKey (JStr (str "foo")) (cache_key [97; 0; 32; 58] (str "b"))
               = Ok (str "foo:a%00%20%3A:b")) by reflexivity.
  split; [by left|]. split; [exact H1|]. split; [exact H2|].
  split; [exact H3|]. split; [exact Hk|].
  destruct (storage_key_alphabet (JStr (str "foo")) (str "foo")
              [97; 0; 32; 58] (str "b") (str "foo:a%00%20%3A:b")
              (or_introl eq_refl) H1 H2 H3 Hk) as (_ & _ & Hcount).
  exact Hcount.
Defined.

(** X10: partitions keep their keys apart.  The storage key of a string key
    under a non-empty string partition is never the storage key of a key
    under another such partition, nor of any key of an adapter without
    partition. *)
Theorem partition_isolation (p1 p2 segment1 id1 segment2 id2 k : jsstring) :
  p1 <> [] -> p2 <> [] ->
  Forall code_unit p1 -> Forall code_unit p2 ->
  Forall code_unit segment1 -> Forall code_unit id1 ->
  Forall code_unit segment2 -> Forall code_unit id2 ->
  generateKey (JStr p1) (cache_key segment1 id1) = Ok k ->
  (generateKey (JStr p2) (cache_key segment2 id2) = Ok k ->
   p1 = p2 /\ segment1 = segment2 /\ id1 = id2)
  /\ (forall partition, truthy partition = false ->
      generateKey partition (cache_key segment2 id2) <> Ok k).
Proof.
  intros Hp1 Hp2 Hw1 Hw2 Hs1 Hi1 Hs2 Hi2.
  rewrite !generateKey_cache_key.
  assert (Ht1 : truthy (JStr p1) = true) by (by destruct p1).
  assert (Ht2 : truthy (JStr p2) = true) by (by destruct p2).
  rewrite Ht1, Ht2, !encodeURIComponent_string.
  destruct (Encode p1) as [e1|] eqn:Ep1; [|discriminate].
  destruct (Encode segment1) as [s1|] eqn:Es1; [|discriminate].
  destruct (Encode id1) as [i1|] eqn:Ei1; [|discriminate].
  intros [= <-].
  change (join (str ":") ([e1] ++ [s1; i1])) with (e1 ++ 58 :: s1 ++ 58 :: i1).
  pose proof (Encode_no_colon p1 e1 Hw1 Ep1) as Hn1.
  pose proof (Encode_no_colon segment1 s1 Hs1 Es1) as Hns1.
  pose proof (Encode_no_colon id1 i1 Hi1 Ei1) as Hni1.
  split.
  - destruct (Encode p2) as [e2|] eqn:Ep2; [|discriminate].
    destruct (Encode segment2) as [s2|] eqn:Es2; [|discriminate].
    destruct (Encode id2) as [i2|] eqn:Ei2; [|discriminate].
    intros [= Heq].
    change (join (str ":") ([e2] ++ [s2; i2]))
      with (e2 ++ 58 :: s2 ++ 58 :: i2) in Heq.
    pose proof (Encode_no_colon p2 e2 Hw2 Ep2) as Hn2.
    pose proof (Encode_no_colon segment2 s2 Hs2 Es2) as Hns2.
    apply split_at_colon in Heq as [-> Heq]; [|done..].
    apply split_at_colon in Heq as [-> ->]; [|done..].
    split; [exact (Encode_inj _ _ _ Hw1 Hw2 Ep1 Ep2)|].
    split; [exact (Encode_inj _ _ _ Hs1 Hs2 Es1 Es2)|].
    exact (Encode_inj _ _ _ Hi1 Hi2 Ei1 Ei2).
  - intros partition Hfalsy. rewrite generateKey_cache_key, Hfalsy.
    destruct (Encode segment2) as [s2|] eqn:Es2; [|discriminate].
    destruct (Encode id2) as [i2|] eqn:Ei2; [|discriminate].
    intros [= Heq].
    change (join (str ":") ([] ++ [s2; i2])) with (s2 ++ 58 :: i2) in Heq.
    pose proof (Encode_no_colon segment2 s2 Hs2 Es2) as Hns2.
    pose proof (Encode_no_colon id2 i2 Hi2 Ei2) as Hni2.
    apply split_at_colon in Heq as [_ ->]; [|done..].
    apply Hni2, in_or_app. right. by left.
Qed.

Lemma partition_isolation_witness :
  str "a" <> [] /\ str "a:b" <> []
  /\ Forall code_unit (str "a") /\ Forall code_unit (str "a:b")
  /\ Forall code_unit (str "b:c") /\ Forall code_unit (str "d")
  /\ Forall code_unit (str "c") /\ Forall code_unit (str "d")
  /\ generateKey (JStr (str "a")) (cache_key (str "b:c") (str "d"))
     = Ok (str "a:b%3Ac:d")
  /\ generateKey (JStr (str "a:b")) (cache_key (str "c") (str "d"))
     <> Ok (str "a:b%3Ac:d").
Proof.
  assert (H1 : Forall code_unit (str "a"))
    by (repeat constructor; unfold code_unit; lia).
  assert (H2 : Forall code_unit (str "a:b"))
    by (repeat constructor; unfold code_unit; lia).
  assert (H3 : Forall code_unit (str "b:c"))
    by (repeat constructor; unfold code_unit; lia).
  assert (H4 : Forall code_unit (str "d"))
    by (repeat constructor; unfold code_unit; lia).
  assert (H5 : Forall code_unit (str "c"))
    by (repeat constructor; unfold code_unit; lia).
  assert (Hk : generateKey (JStr (str "a")) (cache_key (str "b:c") (str "d"))
               = Ok (str "a:b%3Ac:d")) by reflexivity.
  split; [discriminate|]. split; [discriminate|].
  split; [exact H1|]. split; [exact H2|]. split; [exact H3|].
  split; [exact H4|]. split; [exact H5|]. split; [exact H4|].
  split; [exact Hk|].
  intros Hsame.
  destruct (partition_isolation (str "a") (str "a:b") (str "b:c") (str "d")
              (str "c") (str "d") (str "a:b%3Ac:d")
              ltac:(discriminate) ltac:(discriminate) H1 H2 H3 H4 H5 H4 Hk)
    as [Hinj _].
  destruct (Hinj Hsame) as [Hp _]. discriminate Hp.
Defined.

(** X11: a key made of unescaped characters (letters, digits and
    [- _ . ! ~ * ' ( )]) is stored under its own text: the storage key is
    [partition:segment:id], or [segment:id] without a partition. *)
Theorem plain_key_verbatim (partition : jsval) (p segment id : jsstring) :
  Forall (fun c => uriUnescaped c = true) p ->
  Forall (fun c => uriUnescaped c = true) segment ->
  Forall (fun c => uriUnescaped c = true) id ->
  (p <> [] ->
   generateKey (JStr p) (cache_key segment id)
   = Ok (p ++ str ":" ++ segment ++ str ":" ++ id))
  /\ (truthy partition = false ->
      generateKey partition (cache_key segment id)
      = Ok (segment ++ str ":" ++ id)).
Proof.
  intros Hp Hs Hi. split.
  - intros Hne. rewrite generateKey_cache_key.
    assert (Ht : truthy (JStr p) = true) by (by destruct p).
    rewrite Ht, !encodeURIComponent_string.
    by rewrite !Encode_unescaped.
  - intros Hfalsy. rewrite generateKey_cache_key, Hfalsy.
    by rewrite !Encode_unescaped.
Qed.

Lemma plain_key_verbatim_witness :
  Forall (fun c => uriUnescaped c = true) (str "wwwtest")
  /\ Forall (fun c => uriUnescaped c = true) (str "user_1")
  /\ Forall (fun c => uriUnescaped c = true) (str "a.b")
  /\ generateKey (JStr (str "wwwtest")) (cache_key (str "user_1") (str "a.b"))
     = Ok (str "wwwtest:user_1:a.b").
Proof.
  assert (H1 : Forall (fun c => uriUnescaped c = true) (str "wwwtest"))
    by (by repeat constructor).
  assert (H2 : Forall (fun c => uriUnescaped c = true) (str "user_1"))
    by (by repeat constructor).
  assert (H3 : Forall (fun c => uriUnescaped c = true) (str "a.b"))
    by (by repeat constructor).
  split; [exact H1|]. split; [exact H2|]. split; [exact H3|].
  apply (plain_key_verbatim JUndefined (str "wwwtest") (str "user_1")
           (str "a.b") H1 H2 H3).
  discriminate.
Defined.

(** The operations depend on the key through its storage key only. *)
Lemma operations_same_key {C : Type} `{Client C}
    (partition key1 key2 value : jsval) (ttl : Z) (w : world C) :
  generateKey partition key1 = generateKey partition key2 ->
  get partition key1 w = get partition key2 w
  /\ set partition key1 value ttl w = set partition key2 value ttl w
  /\ drop partition key1 w = drop partition key2 w.
Proof.
  intros Hk. unfold get, set, drop, bind, lift. by rewrite Hk.
Qed.

(** X12: the fields of a key are converted to strings before they are
    encoded, so keys that differ before the conversion only are one key to
    the store: a key whose segment and id have string conversions shares the
    storage key, and so the entry read, written and deleted, of the key made
    of those strings (a missing field counts as the string "undefined", the
    number 1 as "1"), and a key that is itself a string, a number, a boolean
    or an array shares those of the empty object. *)
Theorem keys_collide_after_conversion {C : Type} `{Client C}
    (partition key value : jsval) (ttl : Z) (w : world C)
    (segment id : jsstring) :
  key <> JNull -> key <> JUndefined ->
  to_string (field key "segment") = Ok segment ->
  to_string (field key "id") = Ok id ->
  let normal := cache_key segment id in
  generateKey partition key = generateKey partition normal
  /\ get partition key w = get partition normal w
  /\ set partition key value ttl w = set partition normal value ttl w
  /\ drop partition key w = drop partition normal w
  /\ ((forall fields, key <> JObj fields) ->
      (forall fields name, key <> JCycle fields name) ->
      normal = cache_key (str "undefined") (str "undefined")).
Proof.
  intros Hnull Hundef Hs Hi normal.
  assert (Hk : generateKey partition key = generateKey partition normal).
  { subst normal. rewrite generateKey_cache_key.
    rewrite generateKey_present by done.
    unfold encodeURIComponent. by rewrite Hs, Hi. }
  split; [exact Hk|].
  destruct (operations_same_key partition key normal value ttl w Hk)
    as (Hg & Hset & Hd).
  split; [exact Hg|]. split; [exact Hset|]. split; [exact Hd|].
  intros Hobj Hcycle. subst normal.
  assert (Hfields : field key "segment" = JUndefined
                    /\ field key "id" = JUndefined).
  { destruct key as [| |b|n|s|items|fields|fields name]; try done.
    - by destruct (Hobj fields).
    - by destruct (Hcycle fields name). }
  destruct Hfields as [Es Ei]. rewrite Es in Hs. rewrite Ei in Hi.
  injection Hs as <-. injection Hi as <-. reflexivity.
Qed.

Lemma keys_collide_after_conversion_witness :
  JStr (str "test") <> JNull /\ JStr (str "test") <> JUndefined
  /\ to_string (field (JStr (str "test")) "segment") = Ok (str "undefined")
  /\ to_string (field (JStr (str "test")) "id") = Ok (str "undefined")
  /\ generateKey JUndefined (JStr (str "test")) = Ok (str "undefined:undefined")
  /\ generateKey JUndefined (JObj [(str "segment", JNum 1); (str "id", JNull)])
     = generateKey JUndefined (cache_key (str "1") (str "null")).
Proof.
  split; [discriminate|]. split; [discriminate|].
  split; [reflexivity|]. split; [reflexivity|].
  split.
  - destruct (keys_collide_after_conversion JUndefined (JStr (str "test"))
                JNull 1 ready_world (str "undefined") (str "undefined")
                ltac:(discriminate) ltac:(discriminate))
      as (Hk & _); [reflexivity|reflexivity|]. rewrite Hk. reflexivity.
  - destruct (keys_collide_after_conversion JUndefined
                (JObj [(str "segment", JNum 1); (str "id", JNull)])
                JNull 1 ready_world (str "1") (str "null")
                ltac:(discriminate) ltac:(discriminate))
      as (Hk & _); [reflexivity|reflexivity|]. exact Hk.
Defined.

(** The conversion and the encoding fail apart: the one with a TypeError,
    the other with a URIError. *)
Lemma encodeURIComponent_TypeError v :
  encodeURIComponent v = Err TypeError <-> to_string v = Err TypeError.
Proof.
  unfold encodeURIComponent. destruct (to_string v) as [s|e] eqn:Es.
  - cbn [mbind result_bind]. split; [|discriminate].
    intros He. apply Encode_error in He. discriminate He.
  - done.
Qed.

Lemma encodeURIComponent_URIError v :
  encodeURIComponent v = Err URIError
  <-> exists s, to_string v = Ok s /\ Encode s = Err URIError.
Proof.
  unfold encodeURIComponent. destruct (to_string v) as [s|e] eqn:Es.
  - cbn [mbind result_bind]. split; [by exists s|].
    by intros (s' & [= <-] & He).
  - cbn [mbind result_bind]. split.
    + intros [= ->]. apply to_string_error in Es. discriminate Es.
    + by intros (s' & Hx & _).
Qed.

(** X13: how [generateKey] fails.  With a partition that is absent or can be
    encoded it throws nothing but a TypeError or a URIError.  The TypeError
    is that of a null or absent key, or of a segment, or else an id, that has
    no string conversion, as an object with a [toString] property of its
    own; the URIError is that of a segment, or else an id, whose string
    conversion cannot be encoded (it holds a lone surrogate). *)
Theorem generateKey_failures (partition key : jsval) :
  truthy partition = false \/ encodable partition ->
  (forall e, generateKey partition key = Err e ->
   e = TypeError \/ e = URIError)
  /\ (generateKey partition key = Err TypeError
      <-> key = JNull \/ key = JUndefined
          \/ to_string (field key "segment") = Err TypeError
          \/ (encodable (field key "segment")
              /\ to_string (field key "id") = Err TypeError))
  /\ (generateKey partition key = Err URIError
      <-> key <> JNull /\ key <> JUndefined
          /\ ((exists s, to_string (field key "segment") = Ok s
                         /\ Encode s = Err URIError)
              \/ (encodable (field key "segment")
                  /\ exists i, to_string (field key "id") = Ok i
                               /\ Encode i = Err URIError)))
  /\ (forall fields,
      to_string (JObj fields) = Err TypeError
      <-> own_property (str "toString") fields <> None).
Proof.
  intros Hp.
  assert (Hparts : exists parts,
    (if truthy partition
     then p ← encodeURIComponent partition; Ok [p]
     else Ok []) = Ok parts).
  { destruct (truthy partition); [|by eexists].
    destruct Hp as [Hp|[p ->]]; [discriminate|by eexists]. }
  destruct Hparts as [parts Hparts].
  assert (Hobject : forall fields,
    to_string (JObj fields) = Err TypeError
    <-> own_property (str "toString") fields <> None).
  { intros fields. cbn [to_string]. unfold object_to_string.
    destruct (own_property (str "toString") fields); split; done. }
  assert (Hcases : key = JNull \/ key = JUndefined
                   \/ (key <> JNull /\ key <> JUndefined)).
  { destruct key; auto; right; right; by split. }
  destruct Hcases as [Hk|[Hk|[H1 H2]]].
  - assert (Hgen : generateKey partition key = Err TypeError).
    { unfold generateKey. rewrite Hparts. by subst key. }
    rewrite Hgen. split; [intros e [= <-]; by left|].
    split; [split; auto|]. split; [|exact Hobject].
    split; [discriminate|]. by intros (Hx & _).
  - assert (Hgen : generateKey partition key = Err TypeError).
    { unfold generateKey. rewrite Hparts. by subst key. }
    rewrite Hgen. split; [intros e [= <-]; by left|].
    split; [split; auto|]. split; [|exact Hobject].
    split; [discriminate|]. by intros (_ & Hx & _).
  - rewrite (generateKey_present partition key H1 H2), Hparts.
    cbn [mbind result_bind].
    rewrite <- !encodeURIComponent_TypeError.
    setoid_rewrite <- encodeURIComponent_URIError.
    unfold encodable.
    destruct (encodeURIComponent (field key "segment")) as [s|es] eqn:Es.
    + destruct (encodeURIComponent (field key "id")) as [i|ei] eqn:Ei.
      * cbn [mbind result_bind].
        split; [discriminate|]. split; [|split; [|exact Hobject]].
        -- split; [discriminate|].
           intros [Hx|[Hx|[Hx|[_ Hx]]]]; done.
        -- split; [discriminate|].
           intros (_ & _ & [Hx|[_ Hx]]); done.
      * cbn [mbind result_bind].
        pose proof (encodeURIComponent_error _ _ Ei) as Herr.
        split; [by intros e [= <-]|]. split; [|split; [|exact Hobject]].
        -- split.
           ++ intros [= ->]. right. right. right. split; [by exists s|done].
           ++ intros [Hx|[Hx|[Hx|[_ Hx]]]]; done.
        -- split.
           ++ intros [= ->]. split; [done|]. split; [done|]. right.
              split; [by exists s|done].
           ++ intros (_ & _ & [Hx|[_ Hx]]); done.
    + cbn [mbind result_bind].
      pose proof (encodeURIComponent_error _ _ Es) as Herr.
      split; [by intros e [= <-]|]. split; [|split; [|exact Hobject]].
      * split.
        -- intros [= ->]. right. right. by left.
        -- intros [Hx|[Hx|[Hx|[[s Hx] _]]]]; done.
      * split.
        -- intros [= ->]. split; [done|]. split; [done|]. by left.
        -- intros (_ & _ & [Hx|[[s Hx] _]]); done.
Qed.

Lemma generateKey_failures_witness :
  (truthy JUndefined = false \/ encodable JUndefined)
  /\ generateKey JUndefined JNull = Err TypeError
  /\ generateKey JUndefined
       (JObj [(str "segment", JObj [(str "toString", JStr (str "x"))]);
              (str "id", JStr (str "a"))])
     = Err TypeError
  /\ generateKey JUndefined (cache_key [55357] (str "x")) = Err URIError.
Proof.
  split; [by left|].
  split; [|split].
  - destruct (generateKey_failures JUndefined JNull (or_introl eq_refl))
      as (_ & Htype & _).
    apply Htype. by left.
  - destruct (generateKey_failures JUndefined
                (JObj [(str "segment", JObj [(str "toString", JStr (str "x"))]);
                       (str "id", JStr (str "a"))])
                (or_introl eq_refl)) as (_ & Htype & _).
    apply Htype. right. right. by left.
  - destruct (generateKey_failures JUndefined (cache_key [55357] (str "x"))
                (or_introl eq_refl)) as (_ & _ & Huri & _).
    apply Huri. split; [discriminate|]. split; [discriminate|].
    left. by exists [55357].
Defined.
